(** * shiki-map: the viewing-history ledger and its windowed aggregation

    A shallow embedding of [src/main.py]: the per-title state machine
    [HistoryItem] ([clear], [edit]), the ledger [History] ([process], [show])
    and the text primitives they rest on ([str.find], [str.split], [int],
    [re.findall] for the two compiled patterns).

    Modelling conventions.
    - A Python [str] is a list of Unicode code points ([char := N]); the
      Cyrillic literals of the source are written as Rocq strings and decoded
      from UTF-8 by [ustr].
    - Python integers are [Z].  A [datetime.date] is its proleptic Gregorian
      ordinal ([toordinal()]), from 1 for [date.min] to 3652059 for
      [date.max], and a [datetime.timedelta(days=n)] is [n], at most
      999999999 in magnitude; building a timedelta or moving a date out of
      these ranges raises [OverflowError], as in the library.
    - A raised exception is the [Err] branch of [result]; nothing in the
      source catches one, so the state at the raise is dropped.
    - A [dict] is an association list in insertion order.
    - The [while] loops of [show] run on fuel; [None] means the fuel ran out.
    - [int] is total on digit strings: the limit that newer interpreters put
      on the length of a decimal string is not modelled.
    - Outside the model: the DOM queries of [process], the network and the
      cache behind [get_duration_info], plotting and console output.  The
      Unicode tables behind [\d] and [int], [strptime] and the duration lookup
      are parameters of the development. *)

From Stdlib Require Import String Ascii.
From Stdlib Require Import ZArith NArith Arith List Bool Lia.
From Stdlib Require Import Sorting.Sorted Sorting.Permutation.
Import ListNotations.

Local Open Scope Z_scope.

(* ------------------------------------------------------------------ *)
(** ** Strings *)

Definition char := N.
Definition str := list char.

Definition bytes_of_string (s : string) : list N :=
  List.map (fun b => N_of_ascii b) (list_ascii_of_string s).

(** UTF-8 decoding of well-formed input, one to four bytes per code point. *)
Fixpoint utf8_decode (bs : list N) : str :=
  match bs with
  | [] => []
  | b0 :: r0 =>
    if (b0 <? 128)%N then b0 :: utf8_decode r0
    else match r0 with
    | [] => [b0]
    | b1 :: r1 =>
      if (b0 <? 224)%N
      then (N.lor (N.shiftl (N.land b0 31) 6) (N.land b1 63)) :: utf8_decode r1
      else match r1 with
      | [] => [b0; b1]
      | b2 :: r2 =>
        if (b0 <? 240)%N
        then (N.lor (N.shiftl (N.land b0 15) 12)
               (N.lor (N.shiftl (N.land b1 63) 6) (N.land b2 63)))
             :: utf8_decode r2
        else match r2 with
        | [] => [b0; b1; b2]
        | b3 :: r3 =>
          (N.lor (N.shiftl (N.land b0 7) 18)
            (N.lor (N.shiftl (N.land b1 63) 12)
              (N.lor (N.shiftl (N.land b2 63) 6) (N.land b3 63))))
          :: utf8_decode r3
        end
      end
    end
  end.

Definition ustr (s : string) : str := utf8_decode (bytes_of_string s).

Definition SPACE : char := 32%N.

Fixpoint str_eqb (a b : str) : bool :=
  match a, b with
  | [], [] => true
  | x :: a', y :: b' => N.eqb x y && str_eqb a' b'
  | _, _ => false
  end.

Fixpoint startswith (s sub : str) : bool :=
  match sub, s with
  | [], _ => true
  | _ :: _, [] => false
  | y :: sub', x :: s' => N.eqb x y && startswith s' sub'
  end.

(** [find_from i s sub]: the lowest index, counted from [i], at which [sub]
    occurs in [s], or -1. *)
Fixpoint find_from (i : Z) (s sub : str) : Z :=
  if startswith s sub then i
  else match s with
       | [] => -1
       | _ :: s' => find_from (i + 1) s' sub
       end.

(** [s.find(sub)] *)
Definition find (s sub : str) : Z := find_from 0 s sub.

(** [s.split(sep)] for a separator of one character. *)
Fixpoint split_aux (sep : char) (cur : str) (s : str) : list str :=
  match s with
  | [] => [rev cur]
  | x :: s' => if N.eqb x sep then rev cur :: split_aux sep [] s'
               else split_aux sep (x :: cur) s'
  end.

Definition split (s : str) (sep : char) : list str := split_aux sep [] s.

(* ------------------------------------------------------------------ *)
(** ** Exceptions *)

Inductive exn : Type :=
| InvalidRange (action : str)   (* 'Invalid action (episode range): ...' *)
| OngoingAnime                  (* 'Trying to complete on-going anime' *)
| IndexError
| KeyError
| LookupFailure (href : str)    (* whatever get_duration_info raises *)
| ValueError                    (* strptime on a malformed timestamp *)
| OverflowError.                (* a timedelta or a date out of range *)

Inductive result (A : Type) : Type :=
| Ok (a : A)
| Err (e : exn).
Arguments Ok {A} a.
Arguments Err {A} e.

Definition bind {A B} (m : result A) (k : A -> result B) : result B :=
  match m with
  | Ok a => k a
  | Err e => Err e
  end.

Notation "x <- m ;; k" := (bind m (fun x => k))
  (at level 61, m at next level, right associativity).
Notation "' p <- m ;; k" := (bind m (fun p => k))
  (at level 61, p pattern, m at next level, right associativity).

(** [l[i]] for a non-negative index. *)
Definition getitem {A} (l : list A) (i : nat) : result A :=
  match nth_error l i with
  | Some a => Ok a
  | None => Err IndexError
  end.

(* ------------------------------------------------------------------ *)
(** ** Regular expressions *)

Inductive regex : Type :=
| REmpty                      (* the empty pattern *)
| RChar (c : char)
| RDigit                      (* \d *)
| RSeq (r1 r2 : regex)
| RAlt (r1 r2 : regex)        (* r1|r2 *)
| RPlus (r : regex)           (* r+, greedy *)
| RGroup (r : regex).         (* (r), capturing *)

(** A literal piece of pattern text. *)
Fixpoint RLit (s : str) : regex :=
  match s with
  | [] => REmpty
  | c :: s' => RSeq (RChar c) (RLit s')
  end.

(** A candidate match: the texts of the capturing groups and the unread rest
    of the subject. *)
Definition cand : Type := list str * str.

Record datetime : Type := mk_datetime {
  dt_day : Z;      (* day ordinal of the calendar date *)
  dt_clock : Z     (* seconds into that day *)
}.

(** [dt.date()] *)
Definition date_of (dt : datetime) : Z := dt_day dt.

(** [date.min.toordinal()], [date.max.toordinal()] and the largest magnitude
    of the days of a [timedelta]. *)
Definition MINORDINAL : Z := 1.
Definition MAXORDINAL : Z := 3652059.
Definition MAX_DELTA_DAYS : Z := 999999999.

(** [datetime.timedelta(days=n)] *)
Definition timedelta (days : Z) : result Z :=
  if Z.abs days <=? MAX_DELTA_DAYS then Ok days else Err OverflowError.

(** [d + delta] on a date and a timedelta. *)
Definition date_add (d delta : Z) : result Z :=
  if (MINORDINAL <=? d + delta) && (d + delta <=? MAXORDINAL)
  then Ok (d + delta)
  else Err OverflowError.

(** [d - delta] on a date and a timedelta. *)
Definition date_sub (d delta : Z) : result Z :=
  if (MINORDINAL <=? d - delta) && (d - delta <=? MAXORDINAL)
  then Ok (d - delta)
  else Err OverflowError.

Section Core.

(** The Unicode decimal-digit class behind [\d] and the digit values behind
    [int]. *)
Variable is_digit : char -> bool.
Variable digit_value : char -> Z.

(** [get_duration_info(href)]: [(episodes, duration)], or an exception. *)
Variable get_duration_info : str -> result (Z * Z).

(** [datetime.datetime.strptime(s, DATETIME_FMT)] *)
Variable strptime : str -> result datetime.

(** [int(s)] on a string of decimal digits. *)
Definition int (s : str) : Z :=
  fold_left (fun acc c => 10 * acc + digit_value c) s 0.

(** Greedy repetition: after one iteration, further iterations are tried
    before stopping; an iteration that reads nothing is not repeated. *)
Fixpoint plus_iter (m : str -> list cand) (fuel : nat) (s : str) : list cand :=
  match fuel with
  | O => []
  | S fuel' =>
    flat_map (fun c1 : cand =>
      (if (List.length (snd c1) <? List.length s)%nat
       then List.map (fun c2 : cand => (fst c1 ++ fst c2, snd c2))
                     (plus_iter m fuel' (snd c1))
       else []) ++ [c1]) (m s)
  end.

(** All the ways [r] matches a prefix of [s], in the order in which a
    backtracking matcher tries them. *)
Fixpoint rmatch (r : regex) (s : str) : list cand :=
  match r with
  | REmpty => [([], s)]
  | RChar c =>
    match s with
    | x :: s' => if N.eqb x c then [([], s')] else []
    | [] => []
    end
  | RDigit =>
    match s with
    | x :: s' => if is_digit x then [([], s')] else []
    | [] => []
    end
  | RSeq r1 r2 =>
    flat_map (fun c1 : cand =>
      List.map (fun c2 : cand => (fst c1 ++ fst c2, snd c2))
               (rmatch r2 (snd c1))) (rmatch r1 s)
  | RAlt r1 r2 => rmatch r1 s ++ rmatch r2 s
  | RPlus r' => plus_iter (rmatch r') (S (List.length s)) s
  | RGroup r' =>
    List.map (fun c : cand =>
      (firstn (List.length s - List.length (snd c)) s :: fst c, snd c))
      (rmatch r' s)
  end.

(** [pattern.findall(s)] for a pattern with one capturing group: the text of
    the group for each match, scanning left to right, matches not
    overlapping.  [skip] counts the characters still covered by the last
    match.  Both compiled patterns read at least two characters, so the rule
    for matches of the empty string plays no part. *)
Fixpoint findall_from (r : regex) (s : str) (skip : nat) : list str :=
  match skip, s with
  | S k, _ :: s' => findall_from r s' k
  | S _, [] => []
  | O, [] =>
    match rmatch r [] with
    | c :: _ => [hd [] (fst c)]
    | [] => []
    end
  | O, _ :: s' =>
    match rmatch r s with
    | c :: _ =>
      hd [] (fst c)
      :: findall_from r s' (List.length s - List.length (snd c) - 1)
    | [] => findall_from r s' 0
    end
  end.

Definition findall (r : regex) (s : str) : list str := findall_from r s 0.

(** [re.compile('(\d+)-(?:й|го)')] *)
Definition SINGLE_EPISODE_REGEX : regex :=
  RSeq (RGroup (RPlus RDigit))
       (RSeq (RLit (ustr "-")) (RAlt (RLit (ustr "й")) (RLit (ustr "го")))).

(** [re.compile('(\d+) эпизод')] *)
Definition EPISODES_COUNT_REGEX : regex :=
  RSeq (RGroup (RPlus RDigit)) (RLit (ustr " эпизод")).

(* ------------------------------------------------------------------ *)
(** ** HistoryItem *)

Record HistoryItem : Type := mk_item {
  title : str;
  href : str;
  timestamps : list (datetime * Z);
  current_episode : Z;
  total_views : Z
}.

(** The tuple [edit] returns: [(-1,)], [(0,)], [(1, ep_count)],
    [(2, ep_count, total_views)]. *)
Inductive EventOutcome : Type :=
| Removed
| Ignored
| PartialProgress (ep_count : Z)
| CycleCompleted (ep_count : Z) (views : Z).

(** [HistoryItem.clear] *)
Definition clear (self : HistoryItem) : HistoryItem :=
  {| title := title self;
     href := href self;
     timestamps := [];
     current_episode := 0;
     total_views := 0 |}.

(** [HistoryItem.__init__]: the two attributes, then [self.clear()]. *)
Definition HistoryItem_init (t h : str) : HistoryItem :=
  clear {| title := t; href := h; timestamps := [];
           current_episode := 0; total_views := 0 |}.

(** [self.timestamps.append((date, ep_count))] and
    [self.current_episode += ep_count] *)
Definition watch (self : HistoryItem) (date : datetime) (ep_count : Z)
  : HistoryItem :=
  {| title := title self;
     href := href self;
     timestamps := timestamps self ++ [(date, ep_count)];
     current_episode := current_episode self + ep_count;
     total_views := total_views self |}.

(** The last four statements of [edit]. *)
Definition complete (self : HistoryItem) (date : datetime) (ep_count : Z)
  : HistoryItem :=
  {| title := title self;
     href := href self;
     timestamps := timestamps self ++ [(date, ep_count)];
     current_episode := 0;
     total_views := total_views self + 1 |}.

Definition REMOVED_PHRASE : str := ustr "удалено из списка".
Definition VIEW_PHRASE : str := ustr "просмотр".
Definition RANGE_PHRASE : str := ustr " по ".

(** [HistoryItem.edit] *)
Definition edit (self : HistoryItem) (action : str) (date : datetime)
  : result (EventOutcome * HistoryItem) :=
  if negb (find action REMOVED_PHRASE =? -1) then
    Ok (Removed, clear self)
  else if find action VIEW_PHRASE =? -1 then
    Ok (Ignored, self)
  else
    let ep_count_match := findall EPISODES_COUNT_REGEX action in
    if (0 <? List.length ep_count_match)%nat then
      m0 <- getitem ep_count_match 0 ;;
      w0 <- getitem (split m0 SPACE) 0 ;;
      let ep_count := int w0 in
      Ok (PartialProgress ep_count, watch self date ep_count)
    else
      let ep_match := findall SINGLE_EPISODE_REGEX action in
      if (0 <? List.length ep_match)%nat then
        ep_count <-
          (if find action RANGE_PHRASE =? -1 then
             Ok (Z.of_nat (List.length ep_match))
           else if negb (List.length ep_match =? 2)%nat then
             Err (InvalidRange action)
           else
             m1 <- getitem ep_match 1 ;;
             m0 <- getitem ep_match 0 ;;
             Ok (int m1 - int m0 + 1)) ;;
        Ok (PartialProgress ep_count, watch self date ep_count)
      else
        ' (total_episodes, _) <- get_duration_info (href self) ;;
        if total_episodes =? 0 then Err OngoingAnime
        else
          let ep_count := total_episodes - current_episode self in
          let self' := complete self date ep_count in
          Ok (CycleCompleted ep_count (total_views self'), self').

(* ------------------------------------------------------------------ *)
(** ** Dictionaries in insertion order *)

Section Dict.
Context {K V : Type} (eqb : K -> K -> bool).

Fixpoint dict_get (d : list (K * V)) (k : K) : option V :=
  match d with
  | [] => None
  | (k', v) :: d' => if eqb k' k then Some v else dict_get d' k
  end.

(** [k in d] *)
Definition dict_mem (d : list (K * V)) (k : K) : bool :=
  match dict_get d k with
  | Some _ => true
  | None => false
  end.

(** [d[k] = v]: an existing key keeps its place, a new one goes last. *)
Fixpoint dict_set (d : list (K * V)) (k : K) (v : V) : list (K * V) :=
  match d with
  | [] => [(k, v)]
  | (k', v') :: d' =>
    if eqb k' k then (k', v) :: d' else (k', v') :: dict_set d' k v
  end.

End Dict.

(* ------------------------------------------------------------------ *)
(** ** History *)

(** What [process] reads off a line of the page: the link of the entry (or
    [None]), the English name, the action text and the [datetime] attribute. *)
Record history_line : Type := mk_line {
  line_href : option str;
  line_title : str;
  line_action : str;
  line_timestamp : str
}.

Record History : Type := mk_history {
  items : list (str * HistoryItem)
}.

(** [History.__init__] *)
Definition History_init : History := {| items := [] |}.

(** [parse_timestamp] *)
Definition parse_timestamp (s : str) : result datetime := strptime s.

(** [History.process]; the report printed under [verbose] is not modelled. *)
Definition process (self : History) (line : history_line) : result History :=
  match line_href line with
  | None => Ok self
  | Some h =>
    let t := line_title line in
    let items1 :=
      if negb (dict_mem str_eqb (items self) t)
      then dict_set str_eqb (items self) t (HistoryItem_init t h)
      else items self in
    let action := line_action line in
    date <- parse_timestamp (line_timestamp line) ;;
    match dict_get str_eqb items1 t with
    | None => Err KeyError
    | Some item =>
      ' (_, item') <- edit item action date ;;
      Ok {| items := dict_set str_eqb items1 t item' |}
    end
  end.

(** The main loop of the script: the lines, oldest first, one after another. *)
Fixpoint process_all (self : History) (lines : list history_line)
  : result History :=
  match lines with
  | [] => Ok self
  | l :: ls => self' <- process self l ;; process_all self' ls
  end.

(** [result[date] += x] if the date is there, [result[date] = x] if not. *)
Definition dict_add (res : list (Z * Z)) (date x : Z) : list (Z * Z) :=
  match dict_get Z.eqb res date with
  | Some old => dict_set Z.eqb res date (old + x)
  | None => dict_set Z.eqb res date x
  end.

(** The inner [for] of [show] over one item's timestamps. *)
Definition add_item (episode_duration : Z) (ts : list (datetime * Z))
    (res : list (Z * Z)) : list (Z * Z) :=
  fold_left (fun r (p : datetime * Z) =>
               dict_add r (date_of (fst p)) (snd p * episode_duration))
            ts res.

(** The outer [for] of [show] over [self.items.items()]. *)
Fixpoint collect (its : list (str * HistoryItem)) (res : list (Z * Z))
  : result (list (Z * Z)) :=
  match its with
  | [] => Ok res
  | (_, item) :: rest =>
    if (List.length (timestamps item) =? 0)%nat then collect rest res
    else
      ' (_, episode_duration) <- get_duration_info (href item) ;;
      collect rest (add_item episode_duration (timestamps item) res)
  end.

(** [sorted(l, key=lambda t: t[0])]: a stable sort on the first component. *)
Fixpoint insert_by_key (p : Z * Z) (l : list (Z * Z)) : list (Z * Z) :=
  match l with
  | [] => [p]
  | q :: l' => if fst p <=? fst q then p :: q :: l' else q :: insert_by_key p l'
  end.

Fixpoint sorted (l : list (Z * Z)) : list (Z * Z) :=
  match l with
  | [] => []
  | p :: l' => insert_by_key p (sorted l')
  end.

(** [list(zip( *l))] on a list of pairs. *)
Definition zip_star (l : list (Z * Z)) : list (list Z) :=
  match l with
  | [] => []
  | _ :: _ => [List.map fst l; List.map snd l]
  end.

(** [l[i]] where [0 <= i < len(l)]. *)
Definition item_at (l : list Z) (i : Z) : Z := nth (Z.to_nat i) l 0.

(** [l[-1]] on a list that is not empty. *)
Definition last_of (l : list Z) : Z := last l 0.

(** [l[-1] = v] *)
Definition set_last (l : list Z) (v : Z) : list Z := removelast l ++ [v].

(** [l[:0:-1]] *)
Definition slice_back_to_0 (l : list Z) : list Z := rev (tl l).

Record scan_state : Type := mk_scan {
  current_date : Z;
  right : Z;
  left : Z;
  keys : list Z;
  vals : list Z
}.

(** [while right >= 0 and dates[right] > current_date: ...] *)
Fixpoint loop_right (fuel : nat) (dates episodes : list Z) (cur : Z)
    (r : Z) (vs : list Z) : Z * list Z :=
  match fuel with
  | O => (r, vs)
  | S fuel' =>
    if (0 <=? r) && (item_at dates r >? cur)
    then loop_right fuel' dates episodes cur (r - 1)
           (set_last vs (last_of vs - item_at episodes r))
    else (r, vs)
  end.

(** [while left >= 0 and current_date - dates[left] < span_delta: ...] *)
Fixpoint loop_left (fuel : nat) (dates episodes : list Z) (span_delta cur : Z)
    (l : Z) (vs : list Z) : Z * list Z :=
  match fuel with
  | O => (l, vs)
  | S fuel' =>
    if (0 <=? l) && (cur - item_at dates l <? span_delta)
    then loop_left fuel' dates episodes span_delta cur (l - 1)
           (set_last vs (last_of vs + item_at episodes l))
    else (l, vs)
  end.

(** One pass through the body of [while left >= 0]; [current_date -=
    step_delta] raises when the date leaves the calendar.  Each inner loop
    lowers its index by one per turn and stops below zero, so [index + 1]
    turns of fuel are enough for it. *)
Definition scan_step (dates episodes : list Z) (span_delta step_delta : Z)
    (st : scan_state) : result scan_state :=
  cur <- date_sub (current_date st) step_delta ;;
  let ks := keys st ++ [cur] in
  let vs := vals st ++ [last_of (vals st)] in
  let '(r, vs1) :=
    loop_right (Z.to_nat (right st + 1)) dates episodes cur (right st) vs in
  let '(l, vs2) :=
    loop_left (Z.to_nat (left st + 1)) dates episodes span_delta cur (left st)
      vs1 in
  Ok {| current_date := cur; right := r; left := l; keys := ks; vals := vs2 |}.

(** [while left >= 0: ...] *)
Fixpoint loop (fuel : nat) (dates episodes : list Z) (span_delta step_delta : Z)
    (st : scan_state) : option (result scan_state) :=
  match fuel with
  | O => None
  | S fuel' =>
    if 0 <=? left st
    then match scan_step dates episodes span_delta step_delta st with
         | Ok st' => loop fuel' dates episodes span_delta step_delta st'
         | Err e => Some (Err e)
         end
    else Some (Ok st)
  end.

(** Lines 168-185 of [show]: from the sorted columns to [keys] and [vals]. *)
Definition scan (fuel : nat) (dates episodes : list Z) (span step : Z)
  : option (result scan_state) :=
  match timedelta step with
  | Err e => Some (Err e)
  | Ok step_delta =>
    match timedelta span with
    | Err e => Some (Err e)
    | Ok span_delta =>
      match date_add (last_of dates) step_delta with
      | Err e => Some (Err e)
      | Ok cur =>
        let r := Z.of_nat (List.length dates) - 1 in
        loop fuel dates episodes span_delta step_delta
          {| current_date := cur; right := r; left := r;
             keys := [cur]; vals := [0] |}
      end
    end
  end.

(** [History.show], up to the two columns handed to the plot:
    [keys[:0:-1]] and [vals[:0:-1]]. *)
Definition show (fuel : nat) (self : History) (span step : Z)
  : option (result (list Z * list Z)) :=
  match collect (items self) [] with
  | Err e => Some (Err e)
  | Ok res =>
    let dates := List.map fst res in
    let episodes := List.map snd res in
    let kv := zip_star (sorted (combine dates episodes)) in
    match getitem kv 0 with
    | Err e => Some (Err e)
    | Ok dates' =>
      match getitem kv 1 with
      | Err e => Some (Err e)
      | Ok episodes' =>
        match scan fuel dates' episodes' span step with
        | None => None
        | Some (Err e) => Some (Err e)
        | Some (Ok st) =>
          Some (Ok (slice_back_to_0 (keys st), slice_back_to_0 (vals st)))
        end
      end
    end
  end.

End Core.

(* ------------------------------------------------------------------ *)
(** ** A concrete environment, for running the model *)

(** The ASCII digits: the part of [\d] and of [int] that the texts below use. *)
Definition ascii_is_digit (c : char) : bool := ((48 <=? c) && (c <=? 57))%N.
Definition ascii_digit_value (c : char) : Z := Z.of_N c - 48.

(** A lookup that knows one title of 12 episodes of 24 minutes, one ongoing
    title, and fails on every other link. *)
Definition sample_lookup (h : str) : result (Z * Z) :=
  if str_eqb h (ustr "/animes/1") then Ok (12, 24)
  else if str_eqb h (ustr "/animes/2") then Ok (0, 24)
  else Err (LookupFailure h).

(** A stand-in for [strptime]: the day is read as a decimal number. *)
Definition sample_strptime (s : str) : result datetime :=
  Ok {| dt_day := int ascii_digit_value s; dt_clock := 0 |}.

Definition day (n : Z) : datetime := {| dt_day := n; dt_clock := 0 |}.

Definition sample_item : HistoryItem :=
  HistoryItem_init (ustr "Title") (ustr "/animes/1").

(** The same record after one completed cycle. *)
Definition completed_item : HistoryItem :=
  {| title := ustr "Title"; href := ustr "/animes/1";
     timestamps := [(day 1, 12)]; current_episode := 0; total_views := 1 |}.

(** The same record three episodes into a cycle. *)
Definition started_item : HistoryItem :=
  {| title := ustr "Title"; href := ustr "/animes/1";
     timestamps := [(day 1, 3)]; current_episode := 3; total_views := 0 |}.

Definition sample_edit : HistoryItem -> str -> datetime ->
    result (EventOutcome * HistoryItem) :=
  edit ascii_is_digit ascii_digit_value sample_lookup.

Definition sample_process : History -> history_line -> result History :=
  process ascii_is_digit ascii_digit_value sample_lookup sample_strptime.

Definition sample_show : nat -> History -> Z -> Z ->
    option (result (list Z * list Z)) :=
  show sample_lookup.

(** Three lines of a page: two carry the title "Title", with different
    links; the one between them is about another title. *)
Definition line_first : history_line :=
  {| line_href := Some (ustr "/animes/1"); line_title := ustr "Title";
     line_action := ustr "просмотрено 3 эпизода"; line_timestamp := ustr "1" |}.

Definition line_between : history_line :=
  {| line_href := Some (ustr "/animes/2"); line_title := ustr "Other";
     line_action := ustr "просмотрено 2 эпизода"; line_timestamp := ustr "5" |}.

Definition line_later : history_line :=
  {| line_href := Some (ustr "/animes/1-renamed"); line_title := ustr "Title";
     line_action := ustr "просмотрено"; line_timestamp := ustr "9" |}.

Definition ledger_or_empty (r : result History) : History :=
  match r with
  | Ok h => h
  | Err _ => History_init
  end.

Definition ledger1 : History :=
  Eval vm_compute in ledger_or_empty (sample_process History_init line_first).

Definition ledger2 : History :=
  Eval vm_compute in ledger_or_empty (sample_process ledger1 line_between).

Definition ledger3 : History :=
  Eval vm_compute in ledger_or_empty (sample_process ledger2 line_later).

(* ------------------------------------------------------------------ *)
(** ** Notions the properties are stated with *)

Definition str_eq_dec : forall a b : str, {a = b} + {a <> b} :=
  list_eq_dec N.eq_dec.

(** The number of distinct texts among the ordinal markers found. *)
Definition distinct_markers (ms : list str) : nat :=
  List.length (nodup str_eq_dec ms).

(** An event dated [e] lies in the window of [span] days that ends at the
    sample date [d]. *)
Definition in_window (span d e : Z) : bool := (e <=? d) && (d - e <? span).

(** The minutes of the events of [events] inside the window ending at [d]. *)
Fixpoint window_total (span d : Z) (events : list (Z * Z)) : Z :=
  match events with
  | [] => 0
  | (e, m) :: rest =>
    (if in_window span d e then m else 0) + window_total span d rest
  end.

(** The record a line is routed to: the one stored under its title, or a new
    one made from its title and link. *)
Definition routed (h : History) (line : history_line) (l : str) : HistoryItem :=
  match dict_get str_eqb (items h) (line_title line) with
  | Some item => item
  | None => HistoryItem_init (line_title line) l
  end.

(** The events of the ledger as [show] weighs them: for every record with
    events, each (date, episodes) pair as (day, episodes * minutes per
    episode). *)
Fixpoint ledger_events (get_duration_info : str -> result (Z * Z))
    (its : list (str * HistoryItem)) : list (Z * Z) :=
  match its with
  | [] => []
  | (_, item) :: rest =>
    match get_duration_info (href item) with
    | Ok (_, episode_duration) =>
      List.map (fun p : datetime * Z =>
                  (date_of (fst p), snd p * episode_duration))
               (timestamps item)
    | Err _ => []
    end ++ ledger_events get_duration_info rest
  end.

(** The text does not start with a digit. *)
Definition no_digit_ahead (is_digit : char -> bool) (t : str) : Prop :=
  match t with
  | [] => True
  | c :: _ => is_digit c = false
  end.

(** A non-empty string of digits. *)
Definition digit_string (is_digit : char -> bool) (n : str) : Prop :=
  n <> [] /\ Forall (fun c => is_digit c = true) n.

(** A text that lists the numbers [ns] as ordinals: each one after the
    separator [sep] and with the ending "-й", and [tail] after the last. *)
Definition ordinal_list_text (sep : str) (ns : list str) (tail : str) : str :=
  concat (List.map (fun n => sep ++ n ++ ustr "-й") ns) ++ tail.

(** The record has at least one dated event. *)
Definition has_log (item : HistoryItem) : bool :=
  negb (List.length (timestamps item) =? 0)%nat.

(** Some record of the ledger has a dated event. *)
Definition has_events (h : History) : bool :=
  existsb (fun p : str * HistoryItem => has_log (snd p)) (items h).

(** The duration lookup answers for every record that has events. *)
Definition lookups_succeed (get_duration_info : str -> result (Z * Z))
    (h : History) : bool :=
  forallb (fun p : str * HistoryItem =>
             if has_log (snd p)
             then match get_duration_info (href (snd p)) with
                  | Ok _ => true
                  | Err _ => false
                  end
             else true) (items h).

(** [d] is the latest day among the dated events. *)
Definition latest_day (events : list (Z * Z)) (d : Z) : Prop :=
  In d (List.map fst events) /\
  forall e, In e (List.map fst events) -> e <= d.

(** How many of [dates] are no later than [c]. *)
Fixpoint count_le (c : Z) (dates : list Z) : nat :=
  match dates with
  | [] => O
  | d :: ds => if d <=? c then S (count_le c ds) else count_le c ds
  end.

(** The sum of the first [k] entries. *)
Definition prefix_sum (k : nat) (l : list Z) : Z :=
  fold_right Z.add 0 (firstn k l).

(** The entries of [episodes] whose date is no later than [c], summed. *)
Fixpoint sum_le (c : Z) (dates episodes : list Z) : Z :=
  match dates, episodes with
  | d :: ds, e :: es => (if d <=? c then e else 0) + sum_le c ds es
  | _, _ => 0
  end.

Fixpoint nondecreasing (l : list Z) : Prop :=
  match l with
  | [] => True
  | x :: l' => Forall (fun y => x <= y) l' /\ nondecreasing l'
  end.

(** The sample days after [n] passes of the scan, in the order the scan
    appends them: [last_day], [last_day - step], ... *)
Definition sample_days (last_day step : Z) (n : nat) : list Z :=
  List.map (fun i => last_day - Z.of_nat i * step) (seq 0 n).

(** The state one pass of the scan leads to when its date stays in the
    calendar: [scan_step] without the range check. *)
Definition pass (dates episodes : list Z) (span_delta step_delta : Z)
    (st : scan_state) : scan_state :=
  let cur := current_date st - step_delta in
  let ks := keys st ++ [cur] in
  let vs := vals st ++ [last_of (vals st)] in
  let '(r, vs1) :=
    loop_right (Z.to_nat (right st + 1)) dates episodes cur (right st) vs in
  let '(l, vs2) :=
    loop_left (Z.to_nat (left st + 1)) dates episodes span_delta cur (left st)
      vs1 in
  {| current_date := cur; right := r; left := l; keys := ks; vals := vs2 |}.





(** What holds of the scan state at the head of [while left >= 0] after [n]
    passes, the values appended so far being [vs]. *)
Definition scan_inv (dates episodes : list Z) (span step : Z)
    (n : nat) (vs : list Z) (st : scan_state) : Prop :=
  keys st = (last_of dates + step) :: sample_days (last_of dates) step n /\
  vals st = 0 :: vs /\
  Forall2 (fun d v => v = window_total span d (combine dates episodes))
          (sample_days (last_of dates) step n) vs /\
  current_date st = last_of dates + step - Z.of_nat n * step /\
  (n = O -> left st = Z.of_nat (List.length dates) - 1) /\
  exists R L : nat,
    right st = Z.of_nat R - 1 /\
    left st = Z.of_nat L - 1 /\
    (R <= List.length dates)%nat /\
    (L <= List.length dates)%nat /\
    (count_le (current_date st - step) dates <= R)%nat /\
    (count_le (current_date st - step - span) dates <= L)%nat /\
    last_of (vals st) = prefix_sum R episodes - prefix_sum L episodes.


(* ------------------------------------------------------------------ *)
(** ** The duration lookup: [parse_duration], [parse_episodes],
       [get_duration_info]

    [int] and [str.isdigit] are the interpreter's; the request and the two
    queries on the page it returns are the libraries'.  They are the
    parameters here: the digit class of [str.isdigit], [int] as a partial
    function, and the page of a link as the texts the two queries read. *)

Module AnimeInfo.

Inductive failure : Type :=
| DurationIndexOutOfRange (s : str)
    (* 'Failed to parse duration (index out of range): {s}' *)
| DurationUnknownSignature (token s : str)
    (* 'Failed to parse duration (unknown duration signature {token}): {s}' *)
| IntValueError (s : str)        (* ValueError of int(s) *)
| RequestFailed (href : str)     (* whatever the request or the parser raises *)
| CacheKeyError (href : str).    (* KeyError of INFO_CACHE[href] *)

Inductive attempt (A : Type) : Type :=
| Done (a : A)
| Raised (e : failure).
Arguments Done {A} a.
Arguments Raised {A} e.

(** The page of a title as [get_duration_info] reads it: the text next to
    the key "Эпизоды:" ([None] when the page has no such key) and the text
    next to the key "Длительность эпизода:". *)
Record page : Type := mk_page {
  episodes_text : option str;
  duration_text : str
}.

Definition HOUR : str := ustr "час".
Definition MINUTE : str := ustr "мин".
Definition SLASH : char := 47%N.
Definition QUESTION : str := ustr "?".

Section Functions.

(** The characters of which [str.isdigit] is true. *)
Variable digit_char : char -> bool.

(** [int(s)]; [None] stands for its [ValueError]. *)
Variable py_int : str -> option Z.

(** The request for a link and the parse of its answer; [None] when either
    raises. *)
Variable fetch : str -> option page.

(** [s.isdigit()] *)
Definition isdigit (s : str) : bool :=
  match s with
  | [] => false
  | _ :: _ => forallb digit_char s
  end.

Definition int_of (s : str) : attempt Z :=
  match py_int s with
  | Some n => Done n
  | None => Raised (IntValueError s)
  end.

(** The [for] loop of [parse_duration]: [todo] is what [enumerate] has still
    to yield, its head being [tokens[i]]. *)
Fixpoint duration_loop (s : str) (tokens : list str) (i : nat)
    (todo : list str) (total_duration : Z) : attempt Z :=
  match todo with
  | [] => Done total_duration
  | token :: todo' =>
    if isdigit token then
      if (List.length tokens <=? i + 1)%nat then
        Raised (DurationIndexOutOfRange s)
      else
        let next := nth (i + 1) tokens [] in
        if negb (find next HOUR =? -1) then
          match py_int token with
          | Some n =>
            duration_loop s tokens (S i) todo' (total_duration + 60 * n)
          | None => Raised (IntValueError token)
          end
        else if negb (find next MINUTE =? -1) then
          match py_int token with
          | Some n => duration_loop s tokens (S i) todo' (total_duration + n)
          | None => Raised (IntValueError token)
          end
        else Raised (DurationUnknownSignature next s)
    else duration_loop s tokens (S i) todo' total_duration
  end.

(** [parse_duration] *)
Definition parse_duration (s : str) : attempt Z :=
  let tokens := split s SPACE in
  duration_loop s tokens 0 tokens 0.

(** [parse_episodes] *)
Definition parse_episodes (s : str) : attempt Z :=
  if find s [SLASH] =? -1 then int_of s
  else
    let total_episodes := split s SLASH in
    if negb (find (last total_episodes []) QUESTION =? -1)
    then int_of (hd [] total_episodes)
    else int_of (last total_episodes []).

(** [INFO_CACHE[href]] *)
Definition cached (INFO_CACHE : list (str * (Z * Z))) (href : str)
  : attempt (Z * Z) :=
  match dict_get str_eqb INFO_CACHE href with
  | Some info => Done info
  | None => Raised (CacheKeyError href)
  end.

(** [get_duration_info]: the answer and the cache after the call. *)
Definition get_duration_info (INFO_CACHE : list (str * (Z * Z))) (href : str)
  : attempt (Z * Z) * list (str * (Z * Z)) :=
  if negb (dict_mem str_eqb INFO_CACHE href) then
    match fetch href with
    | None => (Raised (RequestFailed href), INFO_CACHE)
    | Some w =>
      match (match episodes_text w with
             | Some ep => parse_episodes ep
             | None => Done 1
             end) with
      | Raised e => (Raised e, INFO_CACHE)
      | Done episodes =>
        match parse_duration (duration_text w) with
        | Raised e => (Raised e, INFO_CACHE)
        | Done duration =>
          let INFO_CACHE' :=
            dict_set str_eqb INFO_CACHE href (episodes, duration) in
          (cached INFO_CACHE' href, INFO_CACHE')
        end
      end
    end
  else (cached INFO_CACHE href, INFO_CACHE).

(** The walk of [duration_loop] seen from the tokens still to come: a number
    looks at the token after it. *)
Fixpoint duration_walk (s : str) (todo : list str) (total_duration : Z)
  : attempt Z :=
  match todo with
  | [] => Done total_duration
  | token :: todo' =>
    if isdigit token then
      match todo' with
      | [] => Raised (DurationIndexOutOfRange s)
      | next :: _ =>
        if negb (find next HOUR =? -1) then
          match py_int token with
          | Some n => duration_walk s todo' (total_duration + 60 * n)
          | None => Raised (IntValueError token)
          end
        else if negb (find next MINUTE =? -1) then
          match py_int token with
          | Some n => duration_walk s todo' (total_duration + n)
          | None => Raised (IntValueError token)
          end
        else Raised (DurationUnknownSignature next s)
      end
    else duration_walk s todo' total_duration
  end.

(** Every number among the tokens is followed by a token that names a unit,
    and [int] accepts it. *)
Fixpoint units_follow (todo : list str) : bool :=
  match todo with
  | [] => true
  | token :: todo' =>
    (if isdigit token then
       match todo', py_int token with
       | next :: _, Some _ =>
         negb (find next HOUR =? -1) || negb (find next MINUTE =? -1)
       | _, _ => false
       end
     else true) && units_follow todo'
  end.

(** What a request for [href] gives when nothing is cached. *)
Definition fresh_info (href : str) : attempt (Z * Z) :=
  match fetch href with
  | None => Raised (RequestFailed href)
  | Some w =>
    match (match episodes_text w with
           | Some ep => parse_episodes ep
           | None => Done 1
           end) with
    | Raised e => Raised e
    | Done episodes =>
      match parse_duration (duration_text w) with
      | Raised e => Raised e
      | Done duration => Done (episodes, duration)
      end
    end
  end.

(** Every entry of the cache is what a request for its link gives. *)
Definition cache_consistent (INFO_CACHE : list (str * (Z * Z))) : Prop :=
  forall href info,
    dict_get str_eqb INFO_CACHE href = Some info ->
    fresh_info href = Done info.

End Functions.

End AnimeInfo.

(** The ASCII part of [int] and [str.isdigit], and three pages. *)
Definition ascii_int (s : str) : option Z :=
  if AnimeInfo.isdigit ascii_is_digit s
  then Some (int ascii_digit_value s)
  else None.

Definition sample_fetch (h : str) : option AnimeInfo.page :=
  if str_eqb h (ustr "/animes/1") then
    Some {| AnimeInfo.episodes_text := Some (ustr "12");
            AnimeInfo.duration_text := ustr "24 мин." |}
  else if str_eqb h (ustr "/animes/2") then
    Some {| AnimeInfo.episodes_text := Some (ustr "5/?");
            AnimeInfo.duration_text := ustr "1 час 30 мин." |}
  else if str_eqb h (ustr "/animes/3") then
    Some {| AnimeInfo.episodes_text := None;
            AnimeInfo.duration_text := ustr "2 часа" |}
  else None.

Definition sample_get_duration_info :
    list (str * (Z * Z)) -> str ->
    AnimeInfo.attempt (Z * Z) * list (str * (Z * Z)) :=
  AnimeInfo.get_duration_info ascii_is_digit ascii_int sample_fetch.

(* ------------------------------------------------------------------ *)
(** ** Notions for the ledger as a whole *)

(** The line carries a link, so [process] does not skip it. *)
Definition linked (line : history_line) : bool :=
  match line_href line with
  | Some _ => true
  | None => false
  end.

(** The episodes of an event log, summed. *)
Definition sum_deltas (ts : list (datetime * Z)) : Z :=
  fold_right (fun p acc => snd p + acc) 0 ts.

(** The total the lookup gives for a link, 0 when it raises. *)
Definition total_of (get_duration_info : str -> result (Z * Z)) (h : str) : Z :=
  match get_duration_info h with
  | Ok (total, _) => total
  | Err _ => 0
  end.

(** The log accounts for the counters: its episodes are those of the
    completed cycles plus those of the cycle under way. *)
Definition accounted (get_duration_info : str -> result (Z * Z))
    (item : HistoryItem) : Prop :=
  sum_deltas (timestamps item)
  = total_views item * total_of get_duration_info (href item)
    + current_episode item.

(** Titles occur once in the ledger and every record sits under its own
    title. *)
Definition ledger_wf (h : History) : Prop :=
  NoDup (List.map fst (items h)) /\
  forall t item, In (t, item) (items h) -> title item = t.

(** The days of the events of a log, in log order. *)
Definition log_days (item : HistoryItem) : list Z :=
  List.map (fun p : datetime * Z => date_of (fst p)) (timestamps item).

(** The days of the lines that carry a link, in input order; a timestamp
    that does not parse ends the list, as it ends the run. *)
Fixpoint line_days (strptime : str -> result datetime)
    (lines : list history_line) : list Z :=
  match lines with
  | [] => []
  | line :: rest =>
    if linked line then
      match strptime (line_timestamp line) with
      | Ok date => date_of date :: line_days strptime rest
      | Err _ => []
      end
    else line_days strptime rest
  end.

(* ------------------------------------------------------------------ *)
(** ** Notions for the extent of the series *)

(** [d] is the earliest day among the dated events. *)
Definition earliest_day (events : list (Z * Z)) (d : Z) : Prop :=
  In d (List.map fst events) /\
  forall e, In e (List.map fst events) -> d <= e.



(* ------------------------------------------------------------------ *)
(** ** Notions for the action texts of the site *)

(** The characters of the phrases the site writes around the numbers. *)
Definition phrase_chars : str :=
  ustr "удалено из списка, просмотрены с -го по -й эпизодов".

(** No character of the phrases counts as a digit. *)
Definition phrases_no_digits (is_digit : char -> bool) : Prop :=
  Forall (fun c => is_digit c = false) phrase_chars.

(** Every character of [piece] is one of the phrases' characters. *)
Definition of_phrases (piece : str) : bool :=
  forallb (fun c => existsb (N.eqb c) phrase_chars) piece.

(** The text does not start with a space. *)
Definition no_space_ahead (t : str) : Prop :=
  match t with
  | [] => True
  | c :: _ => c <> SPACE
  end.

(** A text that lists numbers as ordinals: each part is what precedes a
    number and the number, which gets the ending "-й"; [tail] follows the
    last. *)
Definition ordinal_text (parts : list (str * str)) (tail : str) : str :=
  concat (List.map (fun p : str * str => fst p ++ snd p ++ ustr "-й") parts)
  ++ tail.

(** A part of such a text: no digit before the number, and a number. *)
Definition ordinal_part (is_digit : char -> bool) (p : str * str) : Prop :=
  Forall (fun c => is_digit c = false) (fst p) /\ digit_string is_digit (snd p).

(* ------------------------------------------------------------------ *)
(** ** Notions for a scan that does not end *)

(** The scan state in which [left] rests on a date that lies [span] days or
    more before the current date. *)
Definition stalled (dates : list Z) (span : Z) (st : scan_state) : Prop :=
  0 <= left st /\ item_at dates (left st) <= current_date st - span.

(** A fourth line, on a title whose link the sample lookup does not know,
    and the ledger after it. *)
Definition line_unknown : history_line :=
  {| line_href := Some (ustr "/animes/404"); line_title := ustr "Unknown";
     line_action := ustr "просмотрено 1 эпизод"; line_timestamp := ustr "7" |}.

Definition unknown_item : HistoryItem :=
  {| title := ustr "Unknown"; href := ustr "/animes/404";
     timestamps := [(day 7, 1)]; current_episode := 1; total_views := 0 |}.

Definition ledger4 : History :=
  Eval vm_compute in ledger_or_empty (sample_process ledger3 line_unknown).

(* ------------------------------------------------------------------ *)
(** ** Text primitives *)

Lemma str_eqb_eq (a b : str) : str_eqb a b = true <-> a = b.
Proof.
  revert b; induction a as [|x a IH]; intros [|y b]; simpl;
    try (split; congruence).
  rewrite andb_true_iff, N.eqb_eq, IH. split.
  - intros [-> ->]; reflexivity.
  - intros H; inversion H; auto.
Qed.

Lemma str_eqb_refl (a : str) : str_eqb a a = true.
Proof. apply str_eqb_eq; reflexivity. Qed.

Lemma str_eqb_neq (a b : str) : str_eqb a b = false <-> a <> b.
Proof.
  destruct (str_eqb a b) eqn:E.
  - apply str_eqb_eq in E. split; congruence.
  - split; [intros _ H | reflexivity].
    apply str_eqb_eq in H. congruence.
Qed.

Lemma split_aux_cons (sep : char) (s cur : str) :
  exists w ws, split_aux sep cur s = w :: ws.
Proof.
  revert cur; induction s as [|x s IH]; intros cur; simpl.
  - eauto.
  - destruct (N.eqb x sep); eauto.
Qed.

(** [s.split(sep)] is never empty, so [s.split(sep)[0]] does not raise. *)
Lemma split_first (s : str) (sep : char) :
  exists w, getitem (split s sep) 0 = Ok w.
Proof.
  destruct (split_aux_cons sep s []) as (w & ws & E).
  exists w. unfold split, getitem. rewrite E. reflexivity.
Qed.

Lemma getitem_0_cons {A} (x : A) (l : list A) : getitem (x :: l) 0 = Ok x.
Proof. reflexivity. Qed.

Lemma length_pos_cons {A} (l : list A) :
  (0 <? List.length l)%nat = true -> exists x l', l = x :: l'.
Proof. destruct l; simpl; [discriminate | eauto]. Qed.

(* ------------------------------------------------------------------ *)
(** ** The state machine *)

Section EditProperties.

Variable is_digit : char -> bool.
Variable digit_value : char -> Z.
Variable get_duration_info : str -> result (Z * Z).


(** The four ways through [edit], one equation each. *)

Lemma edit_removed self action date :
  find action REMOVED_PHRASE <> -1 ->
  edit is_digit digit_value get_duration_info self action date
  = Ok (Removed, clear self).
Proof.
  intros H. unfold edit.
  apply Z.eqb_neq in H. rewrite H. reflexivity.
Qed.

Lemma edit_ignored self action date :
  find action REMOVED_PHRASE = -1 ->
  find action VIEW_PHRASE = -1 ->
  edit is_digit digit_value get_duration_info self action date
  = Ok (Ignored, self).
Proof.
  intros H1 H2. unfold edit.
  rewrite H1, H2. reflexivity.
Qed.

Lemma edit_count self action date m ms :
  find action REMOVED_PHRASE = -1 ->
  find action VIEW_PHRASE <> -1 ->
  findall is_digit EPISODES_COUNT_REGEX action = m :: ms ->
  exists w, getitem (split m SPACE) 0 = Ok w /\
    edit is_digit digit_value get_duration_info self action date
    = Ok (PartialProgress (int digit_value w),
           watch self date (int digit_value w)).
Proof.
  intros H1 H2 H3. destruct (split_first m SPACE) as [w Hw].
  exists w. split; [exact Hw|].
  unfold edit. apply Z.eqb_neq in H2.
  rewrite H1, H2, H3. simpl. rewrite Hw. reflexivity.
Qed.

Lemma edit_ordinals self action date :
  find action REMOVED_PHRASE = -1 ->
  find action VIEW_PHRASE <> -1 ->
  findall is_digit EPISODES_COUNT_REGEX action = [] ->
  findall is_digit SINGLE_EPISODE_REGEX action <> [] ->
  edit is_digit digit_value get_duration_info self action date =
    (ep_count <-
       (if find action RANGE_PHRASE =? -1 then
          Ok (Z.of_nat
                (List.length (findall is_digit SINGLE_EPISODE_REGEX action)))
        else if negb (List.length
                        (findall is_digit SINGLE_EPISODE_REGEX action) =? 2)%nat
        then Err (InvalidRange action)
        else
          m1 <- getitem (findall is_digit SINGLE_EPISODE_REGEX action) 1 ;;
          m0 <- getitem (findall is_digit SINGLE_EPISODE_REGEX action) 0 ;;
          Ok (int digit_value m1 - int digit_value m0 + 1)) ;;
     Ok (PartialProgress ep_count, watch self date ep_count)).
Proof.
  intros H1 H2 H3 H4. unfold edit. apply Z.eqb_neq in H2.
  rewrite H1, H2, H3. simpl.
  destruct (findall is_digit SINGLE_EPISODE_REGEX action) eqn:E; [congruence|].
  reflexivity.
Qed.

Lemma edit_fallback self action date :
  find action REMOVED_PHRASE = -1 ->
  find action VIEW_PHRASE <> -1 ->
  findall is_digit EPISODES_COUNT_REGEX action = [] ->
  findall is_digit SINGLE_EPISODE_REGEX action = [] ->
  edit is_digit digit_value get_duration_info self action date =
    (' (total_episodes, _) <- get_duration_info (href self) ;;
     if total_episodes =? 0 then Err OngoingAnime
     else
       let ep_count := total_episodes - current_episode self in
       Ok (CycleCompleted ep_count (total_views self + 1),
           complete self date ep_count)).
Proof.
  intros H1 H2 H3 H4. unfold edit. apply Z.eqb_neq in H2.
  rewrite H1, H2, H3, H4. reflexivity.
Qed.

(** What an [edit] that returns does to the record, outcome by outcome. *)
Lemma edit_cases self action date out self' :
  edit is_digit digit_value get_duration_info self action date
  = Ok (out, self') ->
  match out with
  | Removed => self' = clear self
  | Ignored => self' = self
  | PartialProgress n => self' = watch self date n
  | CycleCompleted n v =>
    self' = complete self date n /\ v = total_views self + 1 /\
    exists total dur, get_duration_info (href self) = Ok (total, dur) /\
      total <> 0 /\ n = total - current_episode self
  end.
Proof.
  unfold edit.
  destruct (negb (find action REMOVED_PHRASE =? -1)).
  { intros H; inversion H; reflexivity. }
  destruct (find action VIEW_PHRASE =? -1).
  { intros H; inversion H; reflexivity. }
  destruct (0 <? List.length (findall is_digit EPISODES_COUNT_REGEX action))%nat.
  { destruct (getitem (findall is_digit EPISODES_COUNT_REGEX action) 0); simpl;
      [|discriminate].
    destruct (getitem (split a SPACE) 0); simpl; [|discriminate].
    intros H; inversion H; reflexivity. }
  destruct (0 <? List.length (findall is_digit SINGLE_EPISODE_REGEX action))%nat.
  { match goal with
    | |- bind ?m _ = _ -> _ => destruct m; simpl; [|discriminate]
    end.
    intros H; inversion H; reflexivity. }
  destruct (get_duration_info (href self)) as [[total dur]|]; simpl;
    [|discriminate].
  destruct (total =? 0) eqn:E; [discriminate|].
  intros H; inversion H; subst. apply Z.eqb_neq in E.
  split; [reflexivity|]. split; [reflexivity|].
  exists total, dur. auto.
Qed.

Lemma edit_href self action date out self' :
  edit is_digit digit_value get_duration_info self action date
  = Ok (out, self') ->
  href self' = href self /\ title self' = title self.
Proof.
  intros H. apply edit_cases in H.
  destruct out; [subst; auto .. |].
  destruct H as [-> _]; auto.
Qed.

End EditProperties.



Section EditOutcomes.

Variable is_digit : char -> bool.
Variable digit_value : char -> Z.
Variable get_duration_info : str -> result (Z * Z).


(** C1, as amended: a removal action (an [edit] on a text that contains the
    removal phrase) returns [Removed] and leaves the record as [clear] leaves
    it, and [clear], from every prior state, empties [timestamps], sets
    [current_episode] to 0 and sets [total_views] (the completed cycles) to 0
    as well; title and link stay. *)
Theorem removal_resets_record self action date :
  find action REMOVED_PHRASE <> -1 ->
  edit is_digit digit_value get_duration_info self action date
  = Ok (Removed, clear self) /\
  timestamps (clear self) = [] /\
  current_episode (clear self) = 0 /\
  total_views (clear self) = 0 /\
  title (clear self) = title self /\
  href (clear self) = href self.
Proof.
  intros H. split; [apply edit_removed; exact H|].
  repeat split.
Qed.


(** C4, as amended: for a viewing action text with no removal phrase and no
    explicit count phrase, that contains ordinal markers but no range
    connective, [edit] returns [PartialProgress] with the number of ordinal
    markers found, each occurrence counted (a repeated ordinal counts every
    time it occurs); the pair (date, delta) is appended and
    [current_episode] grows by the delta. *)
Theorem ordinal_list_delta self action date :
  find action REMOVED_PHRASE = -1 ->
  find action VIEW_PHRASE <> -1 ->
  findall is_digit EPISODES_COUNT_REGEX action = [] ->
  findall is_digit SINGLE_EPISODE_REGEX action <> [] ->
  find action RANGE_PHRASE = -1 ->
  let delta :=
    Z.of_nat (List.length (findall is_digit SINGLE_EPISODE_REGEX action)) in
  edit is_digit digit_value get_duration_info self action date
  = Ok (PartialProgress delta, watch self date delta) /\
  timestamps (watch self date delta) = timestamps self ++ [(date, delta)] /\
  current_episode (watch self date delta) = current_episode self + delta.
Proof.
  intros H1 H2 H3 H4 H5 delta.
  rewrite (edit_ordinals is_digit digit_value get_duration_info
             self action date H1 H2 H3 H4).
  rewrite H5. simpl. repeat split.
Qed.


(** C6: for a viewing action text with no explicit episode count (no removal
    phrase, no count phrase, no ordinal marker) on a title whose lookup gives
    [total]: [edit] raises exactly when [total] is 0; otherwise it appends
    (date, total - current_episode), sets [current_episode] to 0, adds one to
    [total_views] and returns [CycleCompleted] with that delta and the new
    [total_views]. *)
Theorem fallback_completion self action date total dur :
  find action REMOVED_PHRASE = -1 ->
  find action VIEW_PHRASE <> -1 ->
  findall is_digit EPISODES_COUNT_REGEX action = [] ->
  findall is_digit SINGLE_EPISODE_REGEX action = [] ->
  get_duration_info (href self) = Ok (total, dur) ->
  ((exists e,
      edit is_digit digit_value get_duration_info self action date = Err e)
   <-> total = 0) /\
  (total = 0 ->
   edit is_digit digit_value get_duration_info self action date
   = Err OngoingAnime) /\
  (total <> 0 ->
   exists self',
     edit is_digit digit_value get_duration_info self action date =
       Ok (CycleCompleted (total - current_episode self) (total_views self'),
           self') /\
     timestamps self' =
       timestamps self ++ [(date, total - current_episode self)] /\
     current_episode self' = 0 /\
     total_views self' = total_views self + 1 /\
     title self' = title self /\ href self' = href self).
Proof.
  intros H1 H2 H3 H4 Hl.
  rewrite (edit_fallback is_digit digit_value get_duration_info
             self action date H1 H2 H3 H4).
  rewrite Hl. simpl. destruct (total =? 0) eqn:E.
  - apply Z.eqb_eq in E.
    split; [split; eauto|]. split; [reflexivity | congruence].
  - apply Z.eqb_neq in E.
    split; [split; [intros [e He]; discriminate | congruence]|].
    split; [congruence|].
    intros _. exists (complete self date (total - current_episode self)).
    repeat split.
Qed.

(** C7: the order of the patterns is fixed.  A text that contains the removal
    phrase gives [Removed], whatever else it contains; a text with neither
    the removal phrase nor the viewing phrase gives [Ignored] and leaves the
    record as it was, whatever counts, ordinals or range connectives it
    contains: no count pattern and no lookup decides either result. *)
Theorem pattern_priority self action date :
  (find action REMOVED_PHRASE <> -1 ->
   edit is_digit digit_value get_duration_info self action date
   = Ok (Removed, clear self)) /\
  (find action REMOVED_PHRASE = -1 ->
   find action VIEW_PHRASE = -1 ->
   edit is_digit digit_value get_duration_info self action date
   = Ok (Ignored, self)).
Proof.
  split.
  - apply edit_removed.
  - apply edit_ignored.
Qed.

End EditOutcomes.

(* ------------------------------------------------------------------ *)
(** ** The state machine on concrete texts *)

Example findall_ordinals :
  findall ascii_is_digit SINGLE_EPISODE_REGEX
    (ustr "просмотрены 1-й, 2-й и 3-й эпизоды") = [ustr "1"; ustr "2"; ustr "3"].
Proof. vm_compute. reflexivity. Qed.

Example findall_range :
  findall ascii_is_digit SINGLE_EPISODE_REGEX
    (ustr "просмотрены с 5-го по 10-й эпизоды") = [ustr "5"; ustr "10"].
Proof. vm_compute. reflexivity. Qed.

Example findall_count :
  findall ascii_is_digit EPISODES_COUNT_REGEX (ustr "просмотрено 7 эпизодов")
  = [ustr "7"].
Proof. vm_compute. reflexivity. Qed.

Example edit_explicit_count :
  sample_edit sample_item (ustr "просмотрено 7 эпизодов") (day 1)
  = Ok (PartialProgress 7, watch sample_item (day 1) 7).
Proof. vm_compute. reflexivity. Qed.

Example edit_reaches_completed_item :
  sample_edit sample_item (ustr "просмотрено") (day 1)
  = Ok (CycleCompleted 12 1, completed_item).
Proof. vm_compute. reflexivity. Qed.

Example edit_reaches_started_item :
  sample_edit sample_item (ustr "просмотрено 3 эпизода") (day 1)
  = Ok (PartialProgress 3, started_item).
Proof. vm_compute. reflexivity. Qed.

Lemma removal_resets_record_witness :
  sample_edit completed_item (ustr "удалено из списка") (day 2)
    = Ok (Removed, clear completed_item) /\
  timestamps (clear completed_item) = [] /\
  current_episode (clear completed_item) = 0 /\
  total_views (clear completed_item) = 0 /\
  title (clear completed_item) = title completed_item /\
  href (clear completed_item) = href completed_item.
Proof.
  apply (removal_resets_record ascii_is_digit ascii_digit_value sample_lookup
           completed_item (ustr "удалено из списка") (day 2)).
  vm_compute. discriminate.
Defined.

(** C1 as stated fails: a record with one completed cycle, reached by a
    completion on the fresh record, has its [total_views] set to 0 by a
    removal action. *)
Lemma removal_keeps_cycles_counterexample :
  sample_edit sample_item (ustr "просмотрено") (day 1)
    = Ok (CycleCompleted 12 1, completed_item) /\
  sample_edit completed_item (ustr "удалено из списка") (day 2)
    = Ok (Removed, clear completed_item) /\
  total_views completed_item = 1 /\
  total_views (clear completed_item) <> total_views completed_item.
Proof. vm_compute. repeat split; discriminate. Qed.



Lemma ordinal_list_delta_witness :
  sample_edit sample_item (ustr "просмотрены 1-й, 2-й и 3-й эпизоды") (day 1)
    = Ok (PartialProgress 3, watch sample_item (day 1) 3) /\
  timestamps (watch sample_item (day 1) 3) = timestamps sample_item ++ [(day 1, 3)] /\
  current_episode (watch sample_item (day 1) 3) = current_episode sample_item + 3.
Proof.
  apply (ordinal_list_delta ascii_is_digit ascii_digit_value sample_lookup
           sample_item (ustr "просмотрены 1-й, 2-й и 3-й эпизоды") (day 1));
    vm_compute; try reflexivity; discriminate.
Defined.

(** C4 as stated fails: a text that names the first episode twice has one
    distinct ordinal marker and a delta of 2. *)
Lemma distinct_ordinals_counterexample :
  let action := ustr "просмотрены 1-й и 1-й эпизоды" in
  find action REMOVED_PHRASE = -1 /\
  find action VIEW_PHRASE <> -1 /\
  find action RANGE_PHRASE = -1 /\
  findall ascii_is_digit EPISODES_COUNT_REGEX action = [] /\
  findall ascii_is_digit SINGLE_EPISODE_REGEX action = [ustr "1"; ustr "1"] /\
  distinct_markers (findall ascii_is_digit SINGLE_EPISODE_REGEX action) = 1%nat /\
  sample_edit sample_item action (day 1)
    = Ok (PartialProgress 2, watch sample_item (day 1) 2) /\
  2 <> Z.of_nat (distinct_markers (findall ascii_is_digit SINGLE_EPISODE_REGEX action)).
Proof. vm_compute. repeat split; discriminate. Qed.



Example edit_range :
  sample_edit sample_item (ustr "просмотрены с 5-го по 10-й эпизоды") (day 1)
  = Ok (PartialProgress 6, watch sample_item (day 1) 6).
Proof. vm_compute. reflexivity. Qed.

Example edit_range_one_ordinal :
  sample_edit sample_item (ustr "просмотрены по 10-й эпизоды") (day 1)
  = Err (InvalidRange (ustr "просмотрены по 10-й эпизоды")).
Proof. vm_compute. reflexivity. Qed.

Example edit_range_three_ordinals :
  sample_edit sample_item (ustr "просмотрены с 5-го по 10-й и 12-й эпизоды") (day 1)
  = Err (InvalidRange (ustr "просмотрены с 5-го по 10-й и 12-й эпизоды")).
Proof. vm_compute. reflexivity. Qed.

Lemma fallback_completion_witness :
  ((exists e, sample_edit started_item (ustr "просмотрено") (day 2) = Err e)
   <-> 12 = 0) /\
  (12 = 0 ->
   sample_edit started_item (ustr "просмотрено") (day 2) = Err OngoingAnime) /\
  (12 <> 0 ->
   exists self',
     sample_edit started_item (ustr "просмотрено") (day 2) =
       Ok (CycleCompleted (12 - current_episode started_item) (total_views self'),
           self') /\
     timestamps self' =
       timestamps started_item ++ [(day 2, 12 - current_episode started_item)] /\
     current_episode self' = 0 /\
     total_views self' = total_views started_item + 1 /\
     title self' = title started_item /\ href self' = href started_item).
Proof.
  apply (fallback_completion ascii_is_digit ascii_digit_value sample_lookup
           started_item (ustr "просмотрено") (day 2) 12 24);
    vm_compute; try reflexivity; discriminate.
Defined.

Example edit_fallback_from_three :
  sample_edit started_item (ustr "просмотрено") (day 2)
  = Ok (CycleCompleted 9 1, complete started_item (day 2) 9).
Proof. vm_compute. reflexivity. Qed.

Example edit_fallback_ongoing :
  sample_edit (HistoryItem_init (ustr "Other") (ustr "/animes/2"))
    (ustr "просмотрено") (day 2)
  = Err OngoingAnime.
Proof. vm_compute. reflexivity. Qed.

Lemma pattern_priority_witness :
  sample_edit started_item (ustr "просмотрено 5 эпизодов, удалено из списка") (day 2)
    = Ok (Removed, clear started_item) /\
  sample_edit started_item (ustr "добавлено: с 1-го по 2-й по 3-й, 5 эпизодов") (day 2)
    = Ok (Ignored, started_item).
Proof.
  split.
  - apply (pattern_priority ascii_is_digit ascii_digit_value sample_lookup
             started_item (ustr "просмотрено 5 эпизодов, удалено из списка") (day 2)).
    vm_compute. discriminate.
  - apply (pattern_priority ascii_is_digit ascii_digit_value sample_lookup
             started_item (ustr "добавлено: с 1-го по 2-й по 3-й, 5 эпизодов") (day 2));
      vm_compute; reflexivity.
Defined.

(* ------------------------------------------------------------------ *)
(** ** The ledger *)

Section DictProperties.

Context {V : Type}.

Lemma dict_get_set_same (d : list (str * V)) k v :
  dict_get str_eqb (dict_set str_eqb d k v) k = Some v.
Proof.
  induction d as [|[k' v'] d IH]; simpl.
  - rewrite str_eqb_refl. reflexivity.
  - destruct (str_eqb k' k) eqn:E; simpl; rewrite E; auto.
Qed.

Lemma dict_get_set_other (d : list (str * V)) k k2 v :
  k <> k2 ->
  dict_get str_eqb (dict_set str_eqb d k v) k2 = dict_get str_eqb d k2.
Proof.
  intros Hne. induction d as [|[k' v'] d IH]; simpl.
  - apply str_eqb_neq in Hne. rewrite Hne. reflexivity.
  - destruct (str_eqb k' k) eqn:E; simpl.
    + apply str_eqb_eq in E. subst k'.
      apply str_eqb_neq in Hne. rewrite Hne. reflexivity.
    + rewrite IH. reflexivity.
Qed.

Lemma dict_set_length_present (d : list (str * V)) k v v0 :
  dict_get str_eqb d k = Some v0 ->
  List.length (dict_set str_eqb d k v) = List.length d.
Proof.
  induction d as [|[k' v'] d IH]; simpl; [discriminate|].
  destruct (str_eqb k' k) eqn:E; simpl; auto.
Qed.

Lemma dict_set_length_absent (d : list (str * V)) k v :
  dict_get str_eqb d k = None ->
  List.length (dict_set str_eqb d k v) = S (List.length d).
Proof.
  induction d as [|[k' v'] d IH]; simpl; [reflexivity|].
  destruct (str_eqb k' k) eqn:E; simpl; [discriminate | auto].
Qed.

End DictProperties.

Section LedgerProperties.

Variable is_digit : char -> bool.
Variable digit_value : char -> Z.
Variable get_duration_info : str -> result (Z * Z).
Variable strptime : str -> result datetime.


(** [process] on a line with a link: the timestamp is parsed, the routed
    record is edited and stored back under the title. *)
Lemma process_linked h line l h' :
  line_href line = Some l ->
  process is_digit digit_value get_duration_info strptime h line = Ok h' ->
  exists date out item',
    strptime (line_timestamp line) = Ok date /\
    edit is_digit digit_value get_duration_info
      (routed h line l) (line_action line) date
    = Ok (out, item') /\
    dict_get str_eqb (items h') (line_title line) = Some item' /\
    (forall t, t <> line_title line ->
       dict_get str_eqb (items h') t = dict_get str_eqb (items h) t) /\
    List.length (items h') =
      match dict_get str_eqb (items h) (line_title line) with
      | Some _ => List.length (items h)
      | None => S (List.length (items h))
      end.
Proof.
  intros Hl. unfold process, parse_timestamp, routed, dict_mem. rewrite Hl.
  destruct (strptime (line_timestamp line)) as [date|]; simpl; [|discriminate].
  destruct (dict_get str_eqb (items h) (line_title line)) as [item|] eqn:G; simpl.
  - rewrite G.
    destruct (edit is_digit digit_value get_duration_info item
                (line_action line) date) as [[out item']|] eqn:E;
      simpl; [|discriminate].
    intros H; inversion H; subst; simpl.
    exists date, out, item'.
    split; [reflexivity|]. split; [exact E|].
    split; [apply dict_get_set_same|]. split.
    + intros t Ht. apply dict_get_set_other. congruence.
    + eapply dict_set_length_present; eauto.
  - rewrite dict_get_set_same.
    destruct (edit is_digit digit_value get_duration_info
                (HistoryItem_init (line_title line) l) (line_action line) date)
      as [[out item']|] eqn:E; simpl; [|discriminate].
    intros H; inversion H; subst; simpl.
    exists date, out, item'.
    split; [reflexivity|]. split; [exact E|].
    split; [apply dict_get_set_same|]. split.
    + intros t Ht. rewrite !dict_get_set_other by congruence. reflexivity.
    + erewrite dict_set_length_present by apply dict_get_set_same.
      apply dict_set_length_absent. exact G.
Qed.

(** No line changes the link of a record already in the ledger. *)
Lemma process_keeps_href h line h' t item :
  process is_digit digit_value get_duration_info strptime h line = Ok h' ->
  dict_get str_eqb (items h) t = Some item ->
  exists item', dict_get str_eqb (items h') t = Some item' /\
                href item' = href item.
Proof.
  intros Hp Hg. destruct (line_href line) as [l|] eqn:Hl.
  - destruct (process_linked h line l h' Hl Hp)
      as (date & out & item' & _ & He & Hs & Ho & _).
    destruct (str_eq_dec t (line_title line)) as [->|Hne].
    + exists item'. split; [exact Hs|].
      unfold routed in He. rewrite Hg in He.
      apply edit_href in He. apply He.
    + exists item. rewrite Ho by exact Hne. auto.
  - unfold process in Hp. rewrite Hl in Hp. inversion Hp; subst. eauto.
Qed.

Lemma process_all_keeps_href lines : forall h h' t item,
  process_all is_digit digit_value get_duration_info strptime h lines = Ok h' ->
  dict_get str_eqb (items h) t = Some item ->
  exists item', dict_get str_eqb (items h') t = Some item' /\
                href item' = href item.
Proof.
  induction lines as [|line lines IH]; simpl; intros h h' t item Hp Hg.
  - inversion Hp; subst. eauto.
  - destruct (process is_digit digit_value get_duration_info strptime h line)
      as [h1|] eqn:E; simpl in Hp; [|discriminate].
    destruct (process_keeps_href h line h1 t item E Hg) as (item1 & Hg1 & Hh1).
    destruct (IH h1 h' t item1 Hp Hg1) as (item' & Hg' & Hh').
    exists item'. split; [exact Hg' | congruence].
Qed.

(** C10: the ledger is keyed by the display title.  Take a line [first] with
    link [l1] whose title is not yet in the ledger, any lines [between], and a
    line [later] with the same title and a link [l2] of its own.  The later
    line is routed to the record that sits under the title (no record is
    added for it), the link of that record is [l1] before and after, and so
    [l2] is stored nowhere under that title. *)
Theorem same_title_same_record h first between later l1 l2 h1 h2 h3 :
  line_href first = Some l1 ->
  line_href later = Some l2 ->
  line_title later = line_title first ->
  dict_get str_eqb (items h) (line_title first) = None ->
  process is_digit digit_value get_duration_info strptime h first = Ok h1 ->
  process_all is_digit digit_value get_duration_info strptime h1 between
  = Ok h2 ->
  process is_digit digit_value get_duration_info strptime h2 later = Ok h3 ->
  exists item2 date out item3,
    dict_get str_eqb (items h2) (line_title first) = Some item2 /\
    href item2 = l1 /\
    strptime (line_timestamp later) = Ok date /\
    edit is_digit digit_value get_duration_info
      item2 (line_action later) date
    = Ok (out, item3) /\
    dict_get str_eqb (items h3) (line_title first) = Some item3 /\
    href item3 = l1 /\
    List.length (items h3) = List.length (items h2).
Proof.
  intros Hl1 Hl2 Ht Hnew P1 P2 P3.
  destruct (process_linked h first l1 h1 Hl1 P1)
    as (d1 & o1 & item1 & _ & E1 & G1 & _ & _).
  unfold routed in E1. rewrite Hnew in E1.
  apply edit_href in E1. destruct E1 as [Hh1 _]. simpl in Hh1.
  destruct (process_all_keeps_href between h1 h2 _ item1 P2 G1)
    as (item2 & G2 & Hh2).
  destruct (process_linked h2 later l2 h3 Hl2 P3)
    as (date & out & item3 & Hd & E3 & G3 & _ & Hlen).
  unfold routed in E3. rewrite Ht in *. rewrite G2 in *.
  exists item2, date, out, item3.
  split; [reflexivity|]. split; [congruence|]. split; [exact Hd|].
  split; [exact E3|]. split; [exact G3|]. split; [|exact Hlen].
  apply edit_href in E3. destruct E3 as [E3 _]. congruence.
Qed.

End LedgerProperties.

Example ledger3_items :
  items ledger3 =
    [(ustr "Title",
      {| title := ustr "Title"; href := ustr "/animes/1";
         timestamps := [(day 1, 3); (day 9, 9)];
         current_episode := 0; total_views := 1 |});
     (ustr "Other",
      {| title := ustr "Other"; href := ustr "/animes/2";
         timestamps := [(day 5, 2)];
         current_episode := 2; total_views := 0 |})].
Proof. vm_compute. reflexivity. Qed.

Lemma same_title_same_record_witness :
  exists item2 date out item3,
    dict_get str_eqb (items ledger2) (line_title line_first) = Some item2 /\
    href item2 = ustr "/animes/1" /\
    sample_strptime (line_timestamp line_later) = Ok date /\
    sample_edit item2 (line_action line_later) date = Ok (out, item3) /\
    dict_get str_eqb (items ledger3) (line_title line_first) = Some item3 /\
    href item3 = ustr "/animes/1" /\
    List.length (items ledger3) = List.length (items ledger2).
Proof.
  apply (same_title_same_record ascii_is_digit ascii_digit_value sample_lookup
           sample_strptime History_init line_first [line_between] line_later
           (ustr "/animes/1") (ustr "/animes/1-renamed")
           ledger1 ledger2 ledger3);
    vm_compute; reflexivity.
Defined.

(* ------------------------------------------------------------------ *)
(** ** The aggregation with no events *)

Section ShowEmpty.

Variable get_duration_info : str -> result (Z * Z).

Lemma collect_skips_empty its : forall res,
  Forall (fun p : str * HistoryItem => timestamps (snd p) = []) its ->
  collect get_duration_info its res = Ok res.
Proof.
  induction its as [|[t item] its IH]; intros res H; simpl.
  - reflexivity.
  - inversion H as [|? ? Hi Hr]; subst. simpl in Hi. rewrite Hi. simpl.
    apply IH. exact Hr.
Qed.

(** C3, what the code does: when every record of the ledger has an empty
    event log (in particular when the ledger is empty), [show] raises
    [IndexError] at [kv[0]], for every span and step and before any loop
    runs; it does not return an empty series. *)
Theorem show_without_events_raises fuel h span step :
  Forall (fun p : str * HistoryItem => timestamps (snd p) = []) (items h) ->
  show get_duration_info fuel h span step = Some (Err IndexError).
Proof.
  intros H. unfold show. rewrite (collect_skips_empty _ [] H). reflexivity.
Qed.

End ShowEmpty.

Lemma show_without_events_raises_witness :
  sample_show 0 History_init 49 14 = Some (Err IndexError) /\
  sample_show 100 (ledger_or_empty
      (sample_process History_init
         {| line_href := Some (ustr "/animes/1"); line_title := ustr "Title";
            line_action := ustr "добавлено в список"; line_timestamp := ustr "1" |}))
    49 14 = Some (Err IndexError).
Proof.
  split.
  - apply (show_without_events_raises sample_lookup 0 History_init 49 14).
    constructor.
  - apply (show_without_events_raises sample_lookup).
    vm_compute. repeat constructor.
Defined.

(* ------------------------------------------------------------------ *)
(** ** The two-pointer scan *)

Lemma count_le_length c l : (count_le c l <= List.length l)%nat.
Proof.
  induction l as [|d l IH]; simpl; [lia|].
  destruct (d <=? c); lia.
Qed.

Lemma count_le_mono c1 c2 l :
  c1 <= c2 -> (count_le c1 l <= count_le c2 l)%nat.
Proof.
  intros H. induction l as [|d l IH]; simpl; [lia|].
  destruct (d <=? c1) eqn:E1, (d <=? c2) eqn:E2; lia.
Qed.

Lemma count_le_none c l :
  Forall (fun y => c < y) l -> count_le c l = O.
Proof.
  induction 1 as [|d l Hd _ IH]; simpl; [reflexivity|].
  apply Z.leb_gt in Hd. rewrite Hd. exact IH.
Qed.

Lemma count_le_above c l : forall j,
  nondecreasing l -> (j < List.length l)%nat -> c < nth j l 0 ->
  (count_le c l <= j)%nat.
Proof.
  induction l as [|d l IH]; simpl; intros j Hs Hj Hc; [lia|].
  destruct Hs as [Hd Hs]. destruct j as [|j].
  - apply Z.leb_gt in Hc. rewrite Hc.
    rewrite count_le_none; [lia|].
    apply Z.leb_gt in Hc.
    eapply Forall_impl; [|exact Hd]. simpl. intros; lia.
  - assert (count_le c l <= j)%nat by (apply IH; [assumption | lia | assumption]).
    destruct (d <=? c); lia.
Qed.

Lemma count_le_below c l : forall j,
  nondecreasing l -> (j < List.length l)%nat -> nth j l 0 <= c ->
  (S j <= count_le c l)%nat.
Proof.
  induction l as [|d l IH]; simpl; intros j Hs Hj Hc; [lia|].
  destruct Hs as [Hd Hs]. destruct j as [|j].
  - apply Z.leb_le in Hc. rewrite Hc. lia.
  - assert (S j <= count_le c l)%nat by (apply IH; [assumption | lia | assumption]).
    assert (d <= nth j l 0).
    { rewrite Forall_forall in Hd. apply Hd. apply nth_In. lia. }
    assert (E : (d <=? c) = true) by (apply Z.leb_le; lia).
    rewrite E. lia.
Qed.

Lemma prefix_sum_S l : forall j,
  (j < List.length l)%nat ->
  prefix_sum (S j) l = prefix_sum j l + nth j l 0.
Proof.
  unfold prefix_sum. induction l as [|x l IH]; simpl; intros j Hj; [lia|].
  destruct j as [|j]; simpl; [lia|].
  rewrite <- Z.add_assoc. f_equal. apply IH. lia.
Qed.

Lemma sum_le_none c dates : forall episodes,
  Forall (fun y => c < y) dates -> sum_le c dates episodes = 0.
Proof.
  induction dates as [|d ds IH]; intros [|e es] H; simpl; try reflexivity.
  inversion H as [|? ? Hd Hr]; subst.
  apply Z.leb_gt in Hd. rewrite Hd. rewrite IH by assumption. reflexivity.
Qed.

Lemma prefix_sum_count_le c dates : forall episodes,
  nondecreasing dates ->
  List.length episodes = List.length dates ->
  prefix_sum (count_le c dates) episodes = sum_le c dates episodes.
Proof.
  induction dates as [|d ds IH]; intros [|e es] Hs Hl; simpl in *;
    try reflexivity; try discriminate.
  destruct Hs as [Hd Hs]. destruct (d <=? c) eqn:E.
  - unfold prefix_sum in *. simpl. f_equal. apply IH; [assumption | lia].
  - apply Z.leb_gt in E.
    assert (Hgt : Forall (fun y => c < y) ds).
    { eapply Forall_impl; [|exact Hd]. simpl. intros; lia. }
    rewrite count_le_none, sum_le_none by assumption. reflexivity.
Qed.

Lemma window_total_sum_le span d dates : forall episodes,
  0 <= span ->
  window_total span d (combine dates episodes)
  = sum_le d dates episodes - sum_le (d - span) dates episodes.
Proof.
  intros episodes Hspan. revert episodes.
  induction dates as [|x ds IH]; intros [|e es]; simpl; try reflexivity.
  rewrite IH. unfold in_window.
  destruct (x <=? d) eqn:E1, (d - x <? span) eqn:E2, (x <=? d - span) eqn:E3;
    simpl; try lia;
    repeat match goal with
           | H : (_ <=? _) = true |- _ => apply Z.leb_le in H
           | H : (_ <=? _) = false |- _ => apply Z.leb_gt in H
           | H : (_ <? _) = true |- _ => apply Z.ltb_lt in H
           | H : (_ <? _) = false |- _ => apply Z.ltb_ge in H
           end; lia.
Qed.

Lemma last_of_snoc vs v : last_of (vs ++ [v]) = v.
Proof. unfold last_of. apply last_last. Qed.

Lemma set_last_snoc vs v x : set_last (vs ++ [v]) x = vs ++ [x].
Proof. unfold set_last. rewrite removelast_last. reflexivity. Qed.

Section Scan.

Variables dates episodes : list Z.
Variables span step : Z.

Hypothesis dates_sorted : nondecreasing dates.
Hypothesis same_length : List.length episodes = List.length dates.

(** The inner loop on [right], started with [k] entries not yet passed
    ([right = k - 1]): it stops with as many entries left as there are dates
    up to [cur], and takes the entries it passes off the last value. *)
Lemma loop_right_spec cur : forall k vs v,
  (k <= List.length dates)%nat ->
  (count_le cur dates <= k)%nat ->
  loop_right k dates episodes cur (Z.of_nat k - 1) (vs ++ [v])
  = (Z.of_nat (count_le cur dates) - 1,
     vs ++ [v - (prefix_sum k episodes
                 - prefix_sum (count_le cur dates) episodes)]).
Proof.
  induction k as [|j IH]; intros vs v Hk Hc.
  - simpl. assert (E : count_le cur dates = O) by lia. rewrite E.
    simpl. do 2 f_equal. f_equal. lia.
  - cbn [loop_right].
    replace (Z.of_nat (S j) - 1) with (Z.of_nat j) by lia.
    assert (H0 : (0 <=? Z.of_nat j) = true) by (apply Z.leb_le; lia).
    rewrite H0. cbn [andb]. unfold item_at. rewrite Nat2Z.id.
    destruct (nth j dates 0 >? cur) eqn:E.
    + assert (Hlt : cur < nth j dates 0) by lia.
      assert (Hc' : (count_le cur dates <= j)%nat)
        by (apply count_le_above; [assumption | lia | assumption]).
      rewrite last_of_snoc, set_last_snoc.
      rewrite IH by lia.
      rewrite prefix_sum_S by lia. do 2 f_equal. f_equal. lia.
    + assert (Hle : nth j dates 0 <= cur) by lia.
      assert (Hc' : (S j <= count_le cur dates)%nat)
        by (apply count_le_below; [assumption | lia | assumption]).
      assert (E' : count_le cur dates = S j) by lia. rewrite E'.
      replace (Z.of_nat (S j) - 1) with (Z.of_nat j) by lia.
      do 2 f_equal. f_equal. lia.
Qed.

(** The inner loop on [left]: the same walk against the date [cur - span],
    the passed entries added to the last value. *)
Lemma loop_left_spec cur : forall k vs v,
  (k <= List.length dates)%nat ->
  (count_le (cur - span) dates <= k)%nat ->
  loop_left k dates episodes span cur (Z.of_nat k - 1) (vs ++ [v])
  = (Z.of_nat (count_le (cur - span) dates) - 1,
     vs ++ [v + (prefix_sum k episodes
                 - prefix_sum (count_le (cur - span) dates) episodes)]).
Proof.
  induction k as [|j IH]; intros vs v Hk Hc.
  - simpl. assert (E : count_le (cur - span) dates = O) by lia. rewrite E.
    simpl. do 2 f_equal. f_equal. lia.
  - cbn [loop_left].
    replace (Z.of_nat (S j) - 1) with (Z.of_nat j) by lia.
    assert (H0 : (0 <=? Z.of_nat j) = true) by (apply Z.leb_le; lia).
    rewrite H0. cbn [andb]. unfold item_at. rewrite Nat2Z.id.
    destruct (cur - nth j dates 0 <? span) eqn:E.
    + assert (Hlt : cur - span < nth j dates 0) by lia.
      assert (Hc' : (count_le (cur - span) dates <= j)%nat)
        by (apply count_le_above; [assumption | lia | assumption]).
      rewrite last_of_snoc, set_last_snoc.
      rewrite IH by lia.
      rewrite prefix_sum_S by lia. do 2 f_equal. f_equal. lia.
    + assert (Hle : nth j dates 0 <= cur - span) by lia.
      assert (Hc' : (S j <= count_le (cur - span) dates)%nat)
        by (apply count_le_below; [assumption | lia | assumption]).
      assert (E' : count_le (cur - span) dates = S j) by lia. rewrite E'.
      replace (Z.of_nat (S j) - 1) with (Z.of_nat j) by lia.
      do 2 f_equal. f_equal. lia.
Qed.

Hypothesis span_pos : 0 < span.
Hypothesis step_pos : 0 < step.


Lemma sample_days_S last_day n :
  sample_days last_day step (S n)
  = sample_days last_day step n ++ [last_day - Z.of_nat n * step].
Proof. unfold sample_days. rewrite seq_S, map_app. reflexivity. Qed.

(** One pass keeps the invariant, moves the date back by [step] and leaves
    [left] at the number of dates up to the new trailing edge, minus one. *)
Lemma pass_inv n vs st :
  scan_inv dates episodes span step n vs st ->
  exists v,
    scan_inv dates episodes span step (S n) (vs ++ [v])
      (pass dates episodes span step st) /\
    current_date (pass dates episodes span step st)
      = current_date st - step /\
    left (pass dates episodes span step st)
      = Z.of_nat (count_le (current_date st - step - span) dates) - 1.
Proof.
  intros (Hk & Hv & Hw & Hc & _ & R & L & HR & HL & HRn & HLn & HcR & HcL
          & Hlast).
  unfold pass.
  rewrite HR, HL.
  replace (Z.to_nat (Z.of_nat R - 1 + 1)) with R by lia.
  replace (Z.to_nat (Z.of_nat L - 1 + 1)) with L by lia.
  rewrite Hlast. rewrite Hv.
  rewrite (loop_right_spec (current_date st - step) R (0 :: vs) _ HRn HcR).
  rewrite (loop_left_spec (current_date st - step) L (0 :: vs) _ HLn HcL).
  set (R' := count_le (current_date st - step) dates).
  set (L' := count_le (current_date st - step - span) dates).
  set (v := prefix_sum R episodes - prefix_sum L episodes
            - (prefix_sum R episodes - prefix_sum R' episodes)
            + (prefix_sum L episodes - prefix_sum L' episodes)).
  exists v. cbn [current_date left right keys vals].
  split; [|split; reflexivity].
  assert (Hcur : current_date st - step = last_of dates - Z.of_nat n * step)
    by lia.
  unfold scan_inv. cbn [current_date left right keys vals].
  split. { rewrite Hk, sample_days_S, Hcur. reflexivity. }
  split. { reflexivity. }
  split.
  { rewrite sample_days_S. apply Forall2_app; [exact Hw|].
    constructor; [|constructor].
    rewrite window_total_sum_le by lia.
    rewrite <- !prefix_sum_count_le by assumption.
    rewrite <- Hcur. subst v R' L'. lia. }
  split. { lia. }
  split. { intros; discriminate. }
  exists R', L'.
  split; [reflexivity|]. split; [reflexivity|].
  split; [apply count_le_length|]. split; [apply count_le_length|].
  split; [apply count_le_mono; lia|]. split; [apply count_le_mono; lia|].
  change (0 :: vs ++ [v]) with ((0 :: vs) ++ [v]).
  rewrite last_of_snoc. subst v. lia.
Qed.



Lemma scan_step_in_range st :
  MINORDINAL <= current_date st - step <= MAXORDINAL ->
  scan_step dates episodes span step st
  = Ok (pass dates episodes span step st).
Proof.
  intros H. unfold scan_step, pass, date_sub.
  replace ((MINORDINAL <=? current_date st - step)
           && (current_date st - step <=? MAXORDINAL)) with true
    by (symmetry; apply andb_true_iff; split; apply Z.leb_le; lia).
  cbn [bind].
  destruct (loop_right (Z.to_nat (right st + 1)) dates episodes
              (current_date st - step) (right st)
              (vals st ++ [last_of (vals st)])) as [r vs1].
  destruct (loop_left (Z.to_nat (left st + 1)) dates episodes span
              (current_date st - step) (left st) vs1) as [l vs2].
  reflexivity.
Qed.

Lemma scan_step_out_of_range st :
  ~ MINORDINAL <= current_date st - step <= MAXORDINAL ->
  scan_step dates episodes span step st = Err OverflowError.
Proof.
  intros H. unfold scan_step, date_sub.
  replace ((MINORDINAL <=? current_date st - step)
           && (current_date st - step <=? MAXORDINAL)) with false;
    [reflexivity|].
  symmetry. apply andb_false_iff.
  destruct (Z_le_gt_dec MINORDINAL (current_date st - step)) as [H1 | H1].
  - right. apply Z.leb_gt. lia.
  - left. apply Z.leb_gt. lia.
Qed.


Hypothesis dates_nonempty : dates <> [].



Lemma scan_inv_init :
  scan_inv dates episodes span step O []
    {| current_date := last_of dates + step;
       right := Z.of_nat (List.length dates) - 1;
       left := Z.of_nat (List.length dates) - 1;
       keys := [last_of dates + step];
       vals := [0] |}.
Proof.
  unfold scan_inv. cbn [current_date left right keys vals].
  split; [reflexivity|]. split; [reflexivity|]. split; [constructor|].
  split; [simpl; lia|]. split; [reflexivity|].
  exists (List.length dates), (List.length dates).
  split; [reflexivity|]. split; [reflexivity|].
  split; [lia|]. split; [lia|].
  split; [apply count_le_length|]. split; [apply count_le_length|].
  unfold last_of. simpl. lia.
Qed.




Hypothesis span_max : span <= MAX_DELTA_DAYS.
Hypothesis step_max : step <= MAX_DELTA_DAYS.
Hypothesis first_min : MINORDINAL <= nth 0 dates 0.
Hypothesis last_max : last_of dates + step <= MAXORDINAL.
Hypothesis edge_min : MINORDINAL + step <= nth 0 dates 0 + span.



End Scan.

(* ------------------------------------------------------------------ *)
(** ** From the ledger to the sorted columns *)





Lemma dict_set_keys e : forall (r : list (Z * Z)) x k,
  In k (List.map fst (dict_set Z.eqb r e x)) <->
  k = e \/ In k (List.map fst r).
Proof.
  induction r as [|[k' v] r IH]; simpl; intros x k.
  - intuition.
  - destruct (k' =? e) eqn:E; simpl.
    + apply Z.eqb_eq in E. subst k'. intuition.
    + rewrite IH. intuition.
Qed.

Lemma dict_add_keys r e x k :
  In k (List.map fst (dict_add r e x)) <-> k = e \/ In k (List.map fst r).
Proof.
  unfold dict_add. destruct (dict_get Z.eqb r e); apply dict_set_keys.
Qed.


Lemma add_item_keys dur ts k : forall r,
  In k (List.map fst (add_item dur ts r)) <->
  In k (List.map fst
          (List.map (fun p : datetime * Z => (date_of (fst p), snd p * dur)) ts))
  \/ In k (List.map fst r).
Proof.
  unfold add_item. induction ts as [|[dt ep] ts IH]; simpl; intros r.
  - intuition.
  - rewrite IH, dict_add_keys. intuition.
Qed.

Section Collect.

Variable get_duration_info : str -> result (Z * Z).



Lemma collect_keys k its : forall r res,
  collect get_duration_info its r = Ok res ->
  (In k (List.map fst res) <->
   In k (List.map fst (ledger_events get_duration_info its))
   \/ In k (List.map fst r)).
Proof.
  induction its as [|[t item] its IH]; simpl; intros r res H.
  - inversion H; subst. intuition.
  - destruct (timestamps item) as [|p ts] eqn:T; simpl in H.
    + rewrite (IH _ _ H).
      destruct (get_duration_info (href item)) as [[tot dur]|]; simpl;
        intuition.
    + destruct (get_duration_info (href item)) as [[tot dur]|]; simpl in H;
        [|discriminate].
      rewrite (IH _ _ H), map_app, in_app_iff, add_item_keys, dict_add_keys.
      simpl. intuition.
Qed.

(** The first loop raises only what a lookup raises. *)
Lemma collect_returns its : forall r,
  (forall t item, In (t, item) its -> timestamps item <> [] ->
     exists tot dur, get_duration_info (href item) = Ok (tot, dur)) ->
  exists res, collect get_duration_info its r = Ok res.
Proof.
  induction its as [|[t item] its IH]; simpl; intros r H; [eauto|].
  destruct (timestamps item) as [|p ts] eqn:T; simpl.
  - apply IH. intros t' item' Hin. apply (H t' item'). auto.
  - destruct (H t item) as (tot & dur & E); [auto | congruence |].
    rewrite E. simpl. apply IH.
    intros t' item' Hin. apply (H t' item'). auto.
Qed.

Lemma events_nonempty its :
  (forall t item, In (t, item) its -> timestamps item <> [] ->
     exists tot dur, get_duration_info (href item) = Ok (tot, dur)) ->
  Exists (fun p : str * HistoryItem => timestamps (snd p) <> []) its ->
  ledger_events get_duration_info its <> [].
Proof.
  intros Hok Hex. induction Hex as [[t item] its Hne | [t item] its _ IH];
    simpl in *.
  - destruct (Hok t item) as (tot & dur & E); [auto | exact Hne |].
    rewrite E. destruct (timestamps item); [congruence | discriminate].
  - intros Heq. apply app_eq_nil in Heq. destruct Heq as [_ Heq].
    apply IH; [|exact Heq].
    intros t' item' Hin. apply (Hok t' item'). auto.
Qed.

End Collect.



Lemma insert_by_key_keys p k : forall l,
  In k (List.map fst (insert_by_key p l)) <->
  k = fst p \/ In k (List.map fst l).
Proof.
  induction l as [|q l IH]; simpl.
  - intuition.
  - destruct (fst p <=? fst q); simpl; [intuition|].
    rewrite IH. intuition.
Qed.

Lemma sorted_keys k l :
  In k (List.map fst (sorted l)) <-> In k (List.map fst l).
Proof.
  induction l as [|p l IH]; simpl; [reflexivity|].
  rewrite insert_by_key_keys, IH. intuition.
Qed.

Lemma insert_by_key_nondecreasing p : forall l,
  nondecreasing (List.map fst l) ->
  nondecreasing (List.map fst (insert_by_key p l)).
Proof.
  induction l as [|q l IH]; simpl; intros H.
  - split; [constructor | exact I].
  - destruct H as [Hq Hl]. destruct (fst p <=? fst q) eqn:E; simpl.
    + apply Z.leb_le in E. split; [|split; assumption].
      constructor; [exact E|].
      eapply Forall_impl; [|exact Hq]. simpl. intros; lia.
    + apply Z.leb_gt in E. split; [|apply IH; exact Hl].
      apply Forall_forall. intros x Hx.
      apply insert_by_key_keys in Hx. destruct Hx as [->|Hx]; [lia|].
      rewrite Forall_forall in Hq. apply Hq. exact Hx.
Qed.

Lemma sorted_nondecreasing l : nondecreasing (List.map fst (sorted l)).
Proof.
  induction l as [|p l IH]; simpl; [exact I|].
  apply insert_by_key_nondecreasing. exact IH.
Qed.

Lemma combine_fst_snd (l : list (Z * Z)) :
  combine (List.map fst l) (List.map snd l) = l.
Proof.
  induction l as [|[a b] l IH]; simpl; [reflexivity|].
  rewrite IH. reflexivity.
Qed.

Lemma nondecreasing_last : forall l,
  nondecreasing l -> l <> [] ->
  In (last l 0) l /\ forall x, In x l -> x <= last l 0.
Proof.
  induction l as [|a l IH]; intros Hs Hne; [congruence|].
  destruct Hs as [Ha Hs]. destruct l as [|b l].
  - simpl. split; [auto|]. intros x [->|[]]. lia.
  - destruct (IH Hs) as [Hin Hmax]; [discriminate|].
    change (last (a :: b :: l) 0) with (last (b :: l) 0).
    split; [right; exact Hin|].
    intros x [->|Hx]; [|apply Hmax; exact Hx].
    rewrite Forall_forall in Ha. apply Ha. exact Hin.
Qed.






(* ------------------------------------------------------------------ *)
(** ** The aggregation with events *)

Lemma count_le_pos c l :
  (1 <= count_le c l)%nat <-> exists e, In e l /\ e <= c.
Proof.
  induction l as [|d l IH]; simpl.
  - split; [lia | intros (e & [] & _)].
  - destruct (d <=? c) eqn:E.
    + apply Z.leb_le in E. split; [eauto | lia].
    + apply Z.leb_gt in E. rewrite IH. split.
      * intros (e & He & Hc). eauto.
      * intros (e & [<- | He] & Hc); [lia | eauto].
Qed.


Lemma nondecreasing_first : forall l,
  nondecreasing l -> l <> [] ->
  In (hd 0 l) l /\ forall x, In x l -> hd 0 l <= x.
Proof.
  intros [|a l] Hs Hne; [congruence|].
  destruct Hs as [Ha _]. simpl. split; [auto|].
  intros x [<- | Hx]; [lia|].
  rewrite Forall_forall in Ha. apply Ha. exact Hx.
Qed.

Section ShowProperties.

Variable get_duration_info : str -> result (Z * Z).


Lemma has_log_nonempty item : has_log item = true <-> timestamps item <> [].
Proof.
  unfold has_log. destruct (timestamps item); simpl; split;
    congruence || discriminate.
Qed.

Lemma lookups_succeed_spec h :
  lookups_succeed get_duration_info h = true ->
  forall t item, In (t, item) (items h) -> timestamps item <> [] ->
    exists tot dur, get_duration_info (href item) = Ok (tot, dur).
Proof.
  unfold lookups_succeed. rewrite forallb_forall.
  intros H t item Hin Hne. specialize (H _ Hin). simpl in H.
  apply has_log_nonempty in Hne. rewrite Hne in H.
  destruct (get_duration_info (href item)) as [[tot dur]|];
    [eauto | discriminate].
Qed.

Lemma has_events_spec h :
  has_events h = true ->
  Exists (fun p : str * HistoryItem => timestamps (snd p) <> []) (items h).
Proof.
  unfold has_events. rewrite existsb_exists. intros (p & Hin & Hp).
  apply Exists_exists. exists p. split; [exact Hin|].
  apply has_log_nonempty. exact Hp.
Qed.







End ShowProperties.

(* ------------------------------------------------------------------ *)
(** ** The aggregation on concrete ledgers *)

Example ledger3_events :
  ledger_events sample_lookup (items ledger3) = [(1, 72); (9, 216); (5, 48)].
Proof. vm_compute. reflexivity. Qed.

Example show_ledger3 :
  sample_show 10 ledger3 5 2
  = Some (Ok ([5; 7; 9], [120; 48; 264])).
Proof. vm_compute. reflexivity. Qed.

(** Events on days 100, 110 and 140, a window of 30 days sampled every 10:
    the sample of day 140 leaves out the event of day 110, exactly 30 days
    back; the sample of day 130 leaves out the event of day 100. *)
Example scan_boundary :
  match scan 10 [100; 110; 140] [60; 30; 90] 30 10 with
  | Some (Ok st) =>
    Some (slice_back_to_0 (keys st), slice_back_to_0 (vals st))
  | _ => None
  end
  = Some ([120; 130; 140], [90; 30; 90]).
Proof. vm_compute. reflexivity. Qed.

(** One day closer, the event of day 111 is inside the window of day 140. *)
Example scan_boundary_inside :
  match scan 10 [100; 111; 140] [60; 30; 90] 30 10 with
  | Some (Ok st) =>
    Some (slice_back_to_0 (keys st), slice_back_to_0 (vals st))
  | _ => None
  end
  = Some ([120; 130; 140], [90; 30; 120]).
Proof. vm_compute. reflexivity. Qed.

(** The sample ledger under a window of 4 days sampled every 2: the event of
    day 5 is exactly 4 days before the sample of day 9, the event of day 1
    exactly 4 days before the sample of day 5; neither is in that sample. *)
Example show_ledger3_ties :
  sample_show 10 ledger3 4 2
  = Some (Ok ([3; 5; 7; 9], [72; 48; 48; 216])).
Proof. vm_compute. reflexivity. Qed.




(* ------------------------------------------------------------------ *)
(** ** The ordinal pattern on texts built from markers *)

Section OrdinalPattern.

Variable is_digit : char -> bool.

Hypothesis hyphen_no_digit : is_digit 45%N = false.

Lemma SINGLE_EPISODE_REGEX_eq :
  SINGLE_EPISODE_REGEX
  = RSeq (RGroup (RPlus RDigit))
      (RSeq (RSeq (RChar 45%N) REmpty)
         (RAlt (RSeq (RChar 1081%N) REmpty)
               (RSeq (RChar 1075%N) (RSeq (RChar 1086%N) REmpty)))).
Proof. vm_compute. reflexivity. Qed.

Lemma plus_digit_none fuel t :
  no_digit_ahead is_digit t ->
  plus_iter (rmatch is_digit RDigit) fuel t = [].
Proof.
  intros H. destruct fuel as [|fuel]; [reflexivity|].
  destruct t as [|c t]; simpl in *; [reflexivity|].
  rewrite H. reflexivity.
Qed.

(** The greedy repetition of [\d] tries the whole run of digits first. *)
Lemma plus_digit_head t : forall ds fuel,
  digit_string is_digit ds ->
  no_digit_ahead is_digit t ->
  (List.length ds <= fuel)%nat ->
  exists more,
    plus_iter (rmatch is_digit RDigit) fuel (ds ++ t) = ([], t) :: more.
Proof.
  induction ds as [|d ds IH]; intros fuel [Hne Hd] Ht Hf; [congruence|].
  inversion Hd as [|? ? Hd1 Hd2]; subst.
  destruct fuel as [|fuel]; [simpl in Hf; lia|].
  cbn [plus_iter app].
  change (rmatch is_digit RDigit (d :: ds ++ t))
    with (if is_digit d then [([] : list str, ds ++ t)] else []).
  rewrite Hd1. cbn [flat_map snd fst app].
  assert (Hlen : (List.length (ds ++ t) <? List.length (d :: ds ++ t))%nat
                 = true) by (apply Nat.ltb_lt; simpl; lia).
  rewrite Hlen.
  assert (Hrec : (ds = [] /\
                  plus_iter (rmatch is_digit RDigit) fuel (ds ++ t) = []) \/
                 exists more, plus_iter (rmatch is_digit RDigit) fuel (ds ++ t)
                              = ([], t) :: more).
  { destruct ds as [|d' ds].
    - left. split; [reflexivity|]. apply plus_digit_none. exact Ht.
    - right. apply IH.
      + split; [discriminate | exact Hd2].
      + exact Ht.
      + simpl in Hf |- *. lia. }
  destruct Hrec as [[-> E] | [more E]]; rewrite E; simpl; eauto.
Qed.

Lemma firstn_app_length_diff (ds t : str) :
  firstn (List.length (ds ++ t) - List.length t) (ds ++ t) = ds.
Proof.
  rewrite length_app.
  replace (List.length ds + List.length t - List.length t)%nat
    with (List.length ds + 0)%nat by lia.
  rewrite firstn_app_2. simpl. apply app_nil_r.
Qed.

Lemma rmatch_seq r1 r2 s :
  rmatch is_digit (RSeq r1 r2) s
  = flat_map (fun c1 : cand =>
      List.map (fun c2 : cand => (fst c1 ++ fst c2, snd c2))
               (rmatch is_digit r2 (snd c1))) (rmatch is_digit r1 s).
Proof. reflexivity. Qed.

Lemma rmatch_group_plus r s :
  rmatch is_digit (RGroup (RPlus r)) s
  = List.map (fun c : cand =>
      (firstn (List.length s - List.length (snd c)) s :: fst c, snd c))
      (plus_iter (rmatch is_digit r) (S (List.length s)) s).
Proof. reflexivity. Qed.

(** A run of digits followed by "-й" is matched whole, the digits captured. *)
Lemma rmatch_marker ds rest :
  digit_string is_digit ds ->
  exists more,
    rmatch is_digit SINGLE_EPISODE_REGEX (ds ++ ustr "-й" ++ rest)
    = ([ds], rest) :: more.
Proof.
  intros Hds. rewrite SINGLE_EPISODE_REGEX_eq.
  change (ustr "-й" ++ rest) with (45%N :: 1081%N :: rest).
  set (t := 45%N :: 1081%N :: rest).
  destruct (plus_digit_head t ds (S (List.length (ds ++ t))) Hds
              hyphen_no_digit) as [more E].
  { rewrite length_app. lia. }
  rewrite rmatch_seq, rmatch_group_plus, E.
  cbn [List.map flat_map fst snd].
  rewrite firstn_app_length_diff.
  subst t. cbn [rmatch flat_map List.map app fst snd N.eqb Pos.eqb].
  eauto.
Qed.

Lemma rmatch_no_digit t :
  no_digit_ahead is_digit t ->
  rmatch is_digit SINGLE_EPISODE_REGEX t = [].
Proof.
  intros H. rewrite SINGLE_EPISODE_REGEX_eq.
  rewrite rmatch_seq, rmatch_group_plus.
  rewrite plus_digit_none by exact H. reflexivity.
Qed.

Lemma findall_from_skip r rest : forall pre,
  findall_from is_digit r (pre ++ rest) (List.length pre)
  = findall_from is_digit r rest 0.
Proof.
  induction pre as [|a pre IH]; [reflexivity|].
  simpl. exact IH.
Qed.

(** A marker at the head of the text is found, and the search goes on
    after it. *)
Lemma findall_marker ds rest :
  digit_string is_digit ds ->
  findall is_digit SINGLE_EPISODE_REGEX (ds ++ ustr "-й" ++ rest)
  = ds :: findall is_digit SINGLE_EPISODE_REGEX rest.
Proof.
  intros Hds. destruct (rmatch_marker ds rest Hds) as [more E].
  unfold findall. destruct ds as [|d ds]; [destruct Hds; congruence|].
  cbn [app findall_from] in *. rewrite E. cbn [fst snd hd]. f_equal.
  change (ustr "-й" ++ rest) with ([45%N; 1081%N] ++ rest).
  rewrite app_assoc.
  rewrite <- (findall_from_skip SINGLE_EPISODE_REGEX rest (ds ++ [45%N; 1081%N])).
  f_equal. cbn [List.length]. rewrite !length_app. cbn [List.length].
  unfold char. lia.
Qed.

(** A character that is no digit starts no marker. *)
Lemma findall_no_digit c rest :
  is_digit c = false ->
  findall is_digit SINGLE_EPISODE_REGEX (c :: rest)
  = findall is_digit SINGLE_EPISODE_REGEX rest.
Proof.
  intros H. unfold findall. cbn [findall_from].
  rewrite rmatch_no_digit by exact H. reflexivity.
Qed.

Lemma findall_no_digits pre rest :
  Forall (fun c => is_digit c = false) pre ->
  findall is_digit SINGLE_EPISODE_REGEX (pre ++ rest)
  = findall is_digit SINGLE_EPISODE_REGEX rest.
Proof.
  induction 1 as [|c pre Hc _ IH]; [reflexivity|].
  simpl. rewrite findall_no_digit by exact Hc. exact IH.
Qed.

Lemma findall_nil : findall is_digit SINGLE_EPISODE_REGEX [] = [].
Proof.
  unfold findall. cbn [findall_from].
  rewrite rmatch_no_digit by exact I. reflexivity.
Qed.

(** In a text that lists numbers as ordinals, the pattern finds every
    number, in order, as often as it is written: listing a number twice
    gives two matches. *)
Lemma findall_ordinal_list sep tail : forall ns,
  Forall (fun c => is_digit c = false) sep ->
  Forall (fun c => is_digit c = false) tail ->
  Forall (digit_string is_digit) ns ->
  findall is_digit SINGLE_EPISODE_REGEX (ordinal_list_text sep ns tail) = ns.
Proof.
  intros ns Hsep Htail Hns. unfold ordinal_list_text.
  induction Hns as [|n ns Hn _ IH]; simpl.
  - rewrite <- (app_nil_r tail), findall_no_digits by exact Htail.
    apply findall_nil.
  - rewrite <- !app_assoc. rewrite findall_no_digits by exact Hsep.
    rewrite findall_marker by exact Hn. f_equal. exact IH.
Qed.

End OrdinalPattern.

Example ordinal_list_text_sample :
  ordinal_list_text (ustr ", ") [ustr "1"; ustr "2"; ustr "1"] (ustr " эпизоды")
  = ustr ", 1-й, 2-й, 1-й эпизоды".
Proof. vm_compute. reflexivity. Qed.

(** The same on the ASCII digits, for a list that names the first episode
    twice: three matches, two distinct numbers. *)
Example findall_ordinal_list_repeated :
  findall ascii_is_digit SINGLE_EPISODE_REGEX
    (ordinal_list_text (ustr ", ") [ustr "1"; ustr "2"; ustr "1"]
       (ustr " эпизоды"))
  = [ustr "1"; ustr "2"; ustr "1"].
Proof.
  apply findall_ordinal_list.
  - reflexivity.
  - vm_compute. repeat constructor.
  - vm_compute. repeat constructor.
  - repeat constructor; discriminate.
Qed.

(* ------------------------------------------------------------------ *)
(** ** [split] and [find] on joined texts *)

Lemma split_aux_app sep b : forall a cur,
  split_aux sep cur (a ++ sep :: b)
  = split_aux sep cur a ++ split_aux sep [] b.
Proof.
  induction a as [|x a IH]; intros cur; simpl.
  - rewrite N.eqb_refl. reflexivity.
  - destruct (N.eqb x sep); simpl; rewrite IH; reflexivity.
Qed.

(** Splitting a text joined by the separator gives the parts of both
    sides. *)
Lemma split_join a b sep :
  split (a ++ sep :: b) sep = split a sep ++ split b sep.
Proof. unfold split. apply split_aux_app. Qed.

Lemma split_aux_no_sep sep : forall a cur,
  ~ In sep a -> split_aux sep cur a = [rev cur ++ a].
Proof.
  induction a as [|x a IH]; intros cur H; simpl.
  - rewrite app_nil_r. reflexivity.
  - destruct (N.eqb x sep) eqn:E.
    + apply N.eqb_eq in E. subst x. exfalso. apply H. left. reflexivity.
    + rewrite IH by (intros Hin; apply H; right; exact Hin).
      simpl. rewrite <- app_assoc. reflexivity.
Qed.

Lemma split_no_sep a sep : ~ In sep a -> split a sep = [a].
Proof. intros H. unfold split. rewrite split_aux_no_sep by exact H. reflexivity. Qed.

Lemma find_from_char_absent c : forall s i sub,
  ~ In c s -> find_from i s (c :: sub) = -1.
Proof.
  induction s as [|x s IH]; intros i sub H; simpl.
  - reflexivity.
  - destruct (N.eqb x c) eqn:E.
    + apply N.eqb_eq in E. subst x. exfalso. apply H. left. reflexivity.
    + simpl. apply IH. intros Hin. apply H. right. exact Hin.
Qed.

(** A text that lacks the first character of [sub] does not contain
    [sub]. *)
Lemma find_char_absent c s sub : ~ In c s -> find s (c :: sub) = -1.
Proof. apply find_from_char_absent. Qed.

Lemma startswith_app sub rest : startswith (sub ++ rest) sub = true.
Proof.
  induction sub as [|c sub IH]; simpl; [destruct rest; reflexivity|].
  rewrite N.eqb_refl. exact IH.
Qed.

Lemma find_from_eq i s sub :
  find_from i s sub
  = if startswith s sub then i
    else match s with
         | [] => -1
         | _ :: s' => find_from (i + 1) s' sub
         end.
Proof. destruct s; reflexivity. Qed.

Lemma find_from_present sub rest : forall pre i,
  0 <= i -> find_from i (pre ++ sub ++ rest) sub <> -1.
Proof.
  induction pre as [|x pre IH]; intros i Hi.
  - cbn [app]. rewrite find_from_eq, startswith_app. lia.
  - rewrite find_from_eq. cbn [app].
    destruct (startswith (x :: pre ++ sub ++ rest) sub); [lia|].
    apply IH. lia.
Qed.

(** A text that contains [sub] is found to contain it. *)
Lemma find_present pre sub rest : find (pre ++ sub ++ rest) sub <> -1.
Proof. apply find_from_present. lia. Qed.

(* ------------------------------------------------------------------ *)
(** ** The duration lookup *)

Section AnimeInfoProperties.

Import AnimeInfo.

Variable digit_char : char -> bool.
Variable py_int : str -> option Z.

Lemma duration_loop_walk s : forall todo pre total,
  duration_loop digit_char py_int s (pre ++ todo) (List.length pre) todo total
  = duration_walk digit_char py_int s todo total.
Proof.
  induction todo as [|token todo IH]; intros pre total; [reflexivity|].
  cbn [duration_loop duration_walk].
  assert (Hnext : forall n, duration_loop digit_char py_int s
                    (pre ++ token :: todo) (S (List.length pre)) todo n
                  = duration_walk digit_char py_int s todo n).
  { intros n. specialize (IH (pre ++ [token]) n).
    rewrite <- app_assoc, length_app in IH. simpl in IH.
    replace (List.length pre + 1)%nat with (S (List.length pre)) in IH by lia.
    exact IH. }
  destruct (isdigit digit_char token); [|apply Hnext].
  destruct todo as [|next todo'].
  - assert (E : (List.length (pre ++ [token]) <=? List.length pre + 1)%nat
                = true)
      by (apply Nat.leb_le; rewrite length_app; simpl; lia).
    rewrite E. reflexivity.
  - assert (E : (List.length (pre ++ token :: next :: todo')
                 <=? List.length pre + 1)%nat = false)
      by (apply Nat.leb_gt; rewrite length_app; simpl; lia).
    rewrite E.
    rewrite app_nth2 by lia.
    replace (List.length pre + 1 - List.length pre)%nat with 1%nat by lia.
    cbn [nth].
    destruct (negb (find next HOUR =? -1)).
    + destruct (py_int token); [apply Hnext | reflexivity].
    + destruct (negb (find next MINUTE =? -1)); [|reflexivity].
      destruct (py_int token); [apply Hnext | reflexivity].
Qed.

Lemma parse_duration_walk s :
  parse_duration digit_char py_int s
  = duration_walk digit_char py_int s (split s SPACE) 0.
Proof. unfold parse_duration. apply (duration_loop_walk s _ []). Qed.

Lemma duration_walk_no_numbers s : forall todo total,
  Forall (fun token => isdigit digit_char token = false) todo ->
  duration_walk digit_char py_int s todo total = Done total.
Proof.
  induction todo as [|token todo IH]; intros total H; [reflexivity|].
  inversion H as [|? ? Ht Hr]; subst. cbn [duration_walk]. rewrite Ht.
  apply IH. exact Hr.
Qed.

(** X1: a text in which no space-separated token is a number (the empty text
    among them) has duration 0; nothing is raised. *)
Theorem parse_duration_no_numbers s :
  Forall (fun token => isdigit digit_char token = false) (split s SPACE) ->
  parse_duration digit_char py_int s = Done 0.
Proof.
  intros H. rewrite parse_duration_walk.
  apply duration_walk_no_numbers. exact H.
Qed.

Lemma duration_walk_returns s : forall todo total,
  (exists v, duration_walk digit_char py_int s todo total = Done v) <->
  units_follow digit_char py_int todo = true.
Proof.
  induction todo as [|token todo IH]; intros total.
  - simpl. split; eauto.
  - cbn [duration_walk units_follow].
    destruct (isdigit digit_char token); [|simpl; apply IH].
    destruct todo as [|next todo'].
    + simpl. split; [intros [v H]; discriminate | discriminate].
    + destruct (py_int token) as [n|]; cycle 1.
      { simpl. destruct (negb (find next HOUR =? -1));
          [|destruct (negb (find next MINUTE =? -1))];
          (split; [intros [v H]; discriminate | discriminate]). }
      destruct (negb (find next HOUR =? -1)); [simpl; apply IH|].
      destruct (negb (find next MINUTE =? -1)); [simpl; apply IH|].
      simpl. split; [intros [v H]; discriminate | discriminate].
Qed.

(** X2: [parse_duration] returns exactly when every number among the tokens
    is followed by a token that contains "час" or "мин" and is accepted by
    [int]; in particular a number as the last token always raises. *)
Theorem parse_duration_returns s :
  (exists v, parse_duration digit_char py_int s = Done v) <->
  units_follow digit_char py_int (split s SPACE) = true.
Proof. rewrite parse_duration_walk. apply duration_walk_returns. Qed.

Lemma duration_walk_shift s s' d : forall todo total v,
  duration_walk digit_char py_int s todo total = Done v ->
  duration_walk digit_char py_int s' todo (total + d) = Done (v + d).
Proof.
  induction todo as [|token todo IH]; intros total v H.
  - simpl in *. inversion H. reflexivity.
  - cbn [duration_walk] in *.
    destruct (isdigit digit_char token); [|apply IH; exact H].
    destruct todo as [|next todo']; [discriminate|].
    destruct (negb (find next HOUR =? -1)).
    + destruct (py_int token) as [n|]; [|discriminate].
      replace (total + d + 60 * n) with (total + 60 * n + d) by lia.
      apply IH. exact H.
    + destruct (negb (find next MINUTE =? -1)); [|discriminate].
      destruct (py_int token) as [n|]; [|discriminate].
      replace (total + d + n) with (total + n + d) by lia.
      apply IH. exact H.
Qed.

Lemma duration_walk_app s s' tb : forall ta total x,
  duration_walk digit_char py_int s ta total = Done x ->
  duration_walk digit_char py_int s' (ta ++ tb) total
  = duration_walk digit_char py_int s' tb x.
Proof.
  induction ta as [|token ta IH]; intros total x H.
  - simpl in *. inversion H. reflexivity.
  - cbn [duration_walk app] in *.
    destruct (isdigit digit_char token); [|apply IH; exact H].
    destruct ta as [|next ta']; [discriminate|].
    cbn [app].
    destruct (negb (find next HOUR =? -1)).
    + destruct (py_int token) as [n|]; [|discriminate].
      apply (IH _ _ H).
    + destruct (negb (find next MINUTE =? -1)); [|discriminate].
      destruct (py_int token) as [n|]; [|discriminate].
      apply (IH _ _ H).
Qed.

(** X3: durations add up over texts joined by a space: when both parts
    parse, the joined text parses to the sum. *)
Theorem parse_duration_join a b x y :
  parse_duration digit_char py_int a = Done x ->
  parse_duration digit_char py_int b = Done y ->
  parse_duration digit_char py_int (a ++ SPACE :: b) = Done (x + y).
Proof.
  rewrite !parse_duration_walk. intros Ha Hb.
  rewrite split_join.
  rewrite (duration_walk_app a _ _ _ _ _ Ha).
  replace x with (0 + x) at 1 by lia.
  rewrite (duration_walk_shift b _ x _ _ _ Hb). f_equal. lia.
Qed.

(** X4: a number followed by a unit: hours count 60 minutes each, minutes
    one; a unit token that contains both "час" and "мин" counts as hours. *)
Theorem parse_duration_unit n unit v :
  isdigit digit_char n = true ->
  isdigit digit_char unit = false ->
  ~ In SPACE n -> ~ In SPACE unit ->
  py_int n = Some v ->
  parse_duration digit_char py_int (n ++ SPACE :: unit)
  = if negb (find unit HOUR =? -1) then Done (60 * v)
    else if negb (find unit MINUTE =? -1) then Done v
    else Raised (DurationUnknownSignature unit (n ++ SPACE :: unit)).
Proof.
  intros Hn Hu Hsn Hsu Hv. rewrite parse_duration_walk.
  rewrite split_join, !split_no_sep by assumption.
  cbn [app duration_walk]. rewrite Hn, Hu, Hv.
  destruct (negb (find unit HOUR =? -1)); [reflexivity|].
  destruct (negb (find unit MINUTE =? -1)); reflexivity.
Qed.

Lemma find_single_absent c s : ~ In c s -> find s [c] = -1.
Proof. apply find_char_absent. Qed.

Lemma find_single_present c s : In c s -> find s [c] <> -1.
Proof.
  intros H. apply in_split in H. destruct H as (pre & rest & ->).
  apply (find_present pre [c] rest).
Qed.

(** X5: [parse_episodes] on "watched/total": a text without a slash is
    converted whole; of two parts joined by a slash the second is the count,
    unless it contains a question mark, and then the first is. *)
Theorem parse_episodes_parts a b :
  ~ In SLASH a -> ~ In SLASH b ->
  parse_episodes py_int a = int_of py_int a /\
  parse_episodes py_int (a ++ SLASH :: b)
  = if find b QUESTION =? -1 then int_of py_int b else int_of py_int a.
Proof.
  intros Ha Hb. unfold parse_episodes. split.
  - rewrite find_single_absent by exact Ha. reflexivity.
  - assert (H : find (a ++ SLASH :: b) [SLASH] <> -1).
    { apply find_single_present. apply in_or_app. right. left. reflexivity. }
    apply Z.eqb_neq in H. rewrite H.
    rewrite split_join, !split_no_sep by assumption.
    cbn [app last hd].
    destruct (find b QUESTION =? -1); reflexivity.
Qed.

Variable fetch : str -> option page.

Lemma dict_mem_get {V} (d : list (str * V)) k :
  dict_mem str_eqb d k = true <-> exists v, dict_get str_eqb d k = Some v.
Proof.
  unfold dict_mem. destruct (dict_get str_eqb d k); split; eauto;
    [discriminate | intros [v H]; discriminate].
Qed.

(** What a call does, case by case. *)
Lemma get_duration_info_cases c href r c' :
  get_duration_info digit_char py_int fetch c href = (r, c') ->
  (exists info, dict_get str_eqb c href = Some info /\
                r = Done info /\ c' = c) \/
  (dict_get str_eqb c href = None /\
   exists e, fresh_info digit_char py_int fetch href = Raised e /\
             r = Raised e /\ c' = c) \/
  (dict_get str_eqb c href = None /\
   exists info, fresh_info digit_char py_int fetch href = Done info /\
                r = Done info /\ c' = dict_set str_eqb c href info).
Proof.
  unfold get_duration_info, fresh_info, dict_mem, cached.
  destruct (dict_get str_eqb c href) as [info|] eqn:G; simpl.
  - intros H. inversion H; subst. left. eauto.
  - intros H. right.
    destruct (fetch href) as [w|].
    + destruct (match episodes_text w with
                | Some ep => parse_episodes py_int ep
                | None => Done 1
                end) as [episodes|e].
      * destruct (parse_duration digit_char py_int (duration_text w))
          as [duration|e].
        -- right. split; [reflexivity|].
           rewrite dict_get_set_same in H. inversion H; subst. eauto.
        -- left. inversion H; subst. eauto.
      * left. inversion H; subst. eauto.
    + left. inversion H; subst. eauto.
Qed.

(** X6: the lookup is memoised.  After a call that returned [info] for a
    link, every later call for that link on the resulting cache returns
    [info] again and leaves the cache as it is, whatever the request would
    now give (no request is made). *)
Theorem get_duration_info_memoised c href info c' :
  get_duration_info digit_char py_int fetch c href = (Done info, c') ->
  forall digit_char' py_int' fetch',
    get_duration_info digit_char' py_int' fetch' c' href = (Done info, c').
Proof.
  intros H digit_char' py_int' fetch'.
  assert (G : dict_get str_eqb c' href = Some info).
  { apply get_duration_info_cases in H.
    destruct H as [(i & G & R & ->) | [(_ & e & _ & R & _) | (_ & i & _ & R & ->)]].
    - inversion R; subst. exact G.
    - discriminate.
    - inversion R; subst. apply dict_get_set_same. }
  unfold get_duration_info, dict_mem, cached. rewrite G. reflexivity.
Qed.

(** X7: a call never drops or changes what the cache holds: every entry is
    still there afterwards, a call that raises leaves the cache untouched,
    and a call that returns leaves its answer in the cache. *)
Theorem get_duration_info_keeps_cache c href r c' :
  get_duration_info digit_char py_int fetch c href = (r, c') ->
  (forall k info, dict_get str_eqb c k = Some info ->
                  dict_get str_eqb c' k = Some info) /\
  (forall e, r = Raised e -> c' = c) /\
  (forall info, r = Done info -> dict_get str_eqb c' href = Some info).
Proof.
  intros H. apply get_duration_info_cases in H.
  destruct H as [(i & G & -> & ->) | [(G & e & _ & -> & ->) | (G & i & _ & -> & ->)]].
  - split; [auto|]. split; [auto|]. intros info R. inversion R; subst. exact G.
  - split; [auto|]. split; [auto|]. discriminate.
  - split; [|split; [discriminate|]].
    + intros k info Hk. rewrite dict_get_set_other; [exact Hk|].
      intros ->. congruence.
    + intros info R. inversion R; subst. apply dict_get_set_same.
Qed.

(** X8: on a cache whose entries are what requests give, a call answers what
    a request gives, and the cache stays such a cache: the memoised lookup
    is a function of the link. *)
Theorem get_duration_info_pure c href :
  cache_consistent digit_char py_int fetch c ->
  exists c',
    get_duration_info digit_char py_int fetch c href
    = (fresh_info digit_char py_int fetch href, c') /\
    cache_consistent digit_char py_int fetch c'.
Proof.
  intros Hc.
  destruct (get_duration_info digit_char py_int fetch c href) as [r c'] eqn:E.
  exists c'. apply get_duration_info_cases in E.
  destruct E as [(i & G & -> & ->) | [(G & e & F & -> & ->) | (G & i & F & -> & ->)]].
  - rewrite (Hc _ _ G). auto.
  - rewrite F. auto.
  - rewrite F. split; [reflexivity|].
    intros k info Hk. destruct (str_eq_dec href k) as [<-|Hne].
    + rewrite dict_get_set_same in Hk. inversion Hk; subst. exact F.
    + rewrite dict_get_set_other in Hk by exact Hne. apply (Hc _ _ Hk).
Qed.

End AnimeInfoProperties.

(* ------------------------------------------------------------------ *)
(** ** The ledger over a whole run *)

Lemma dict_get_In {V} (d : list (str * V)) k v :
  dict_get str_eqb d k = Some v -> In (k, v) d.
Proof.
  induction d as [|[k' v'] d IH]; simpl; [discriminate|].
  destruct (str_eqb k' k) eqn:E.
  - intros H. inversion H; subst. apply str_eqb_eq in E. subst. auto.
  - auto.
Qed.

Lemma dict_set_In {V} k v : forall (d : list (str * V)) t x,
  In (t, x) (dict_set str_eqb d k v) ->
  (t = k /\ x = v) \/ In (t, x) d.
Proof.
  induction d as [|[k' v'] d IH]; simpl; intros t x H.
  - destruct H as [H|[]]. inversion H; auto.
  - destruct (str_eqb k' k) eqn:E; simpl in H.
    + apply str_eqb_eq in E. subst k'.
      destruct H as [H|H]; [inversion H; auto | auto].
    + destruct H as [H|H]; [auto|].
      destruct (IH _ _ H); auto.
Qed.

Lemma dict_set_twice {V} k v v' : forall (d : list (str * V)),
  dict_set str_eqb (dict_set str_eqb d k v) k v' = dict_set str_eqb d k v'.
Proof.
  induction d as [|[k0 v0] d IH]; simpl.
  - rewrite str_eqb_refl. reflexivity.
  - destruct (str_eqb k0 k) eqn:E; simpl; rewrite E; [reflexivity|].
    rewrite IH. reflexivity.
Qed.

Lemma dict_set_keys_present {V} k v : forall (d : list (str * V)),
  dict_mem str_eqb d k = true ->
  List.map fst (dict_set str_eqb d k v) = List.map fst d.
Proof.
  unfold dict_mem.
  induction d as [|[k' v'] d IH]; simpl; [discriminate|].
  destruct (str_eqb k' k) eqn:E; simpl; [reflexivity|].
  intros H. rewrite IH by exact H. reflexivity.
Qed.

Lemma dict_set_keys_absent {V} k v : forall (d : list (str * V)),
  dict_mem str_eqb d k = false ->
  List.map fst (dict_set str_eqb d k v) = List.map fst d ++ [k].
Proof.
  unfold dict_mem.
  induction d as [|[k' v'] d IH]; simpl; [reflexivity|].
  destruct (str_eqb k' k) eqn:E; simpl; [discriminate|].
  intros H. rewrite IH by exact H. reflexivity.
Qed.

Lemma dict_mem_In {V} (d : list (str * V)) k :
  dict_mem str_eqb d k = false -> ~ In k (List.map fst d).
Proof.
  unfold dict_mem.
  induction d as [|[k' v'] d IH]; simpl; [tauto|].
  destruct (str_eqb k' k) eqn:E; [discriminate|].
  intros H [Hk|Hk].
  - apply str_eqb_neq in E. congruence.
  - exact (IH H Hk).
Qed.

Lemma dict_set_NoDup {V} k v (d : list (str * V)) :
  NoDup (List.map fst d) -> NoDup (List.map fst (dict_set str_eqb d k v)).
Proof.
  intros H. destruct (dict_mem str_eqb d k) eqn:E.
  - rewrite dict_set_keys_present by exact E. exact H.
  - rewrite dict_set_keys_absent by exact E.
    apply NoDup_app; [exact H | constructor; [tauto | constructor] |].
    intros a Ha [Hk|[]]. subst a. exact (dict_mem_In d k E Ha).
Qed.

Section RunProperties.

Variable is_digit : char -> bool.
Variable digit_value : char -> Z.
Variable get_duration_info : str -> result (Z * Z).
Variable strptime : str -> result datetime.

(** What one [process] does to the records of the ledger: nothing on a line
    without link; otherwise one record - the one under the title of the
    line, or a new one - is edited at the date of the line and put under
    that title, the others stay. *)
Lemma process_records h line h' :
  process is_digit digit_value get_duration_info strptime h line = Ok h' ->
  (linked line = false /\ h' = h) \/
  (exists l date out item item',
     line_href line = Some l /\
     strptime (line_timestamp line) = Ok date /\
     (In (line_title line, item) (items h) \/
      item = HistoryItem_init (line_title line) l) /\
     edit is_digit digit_value get_duration_info item (line_action line) date
     = Ok (out, item') /\
     (forall t x, In (t, x) (items h') ->
        (t = line_title line /\ x = item') \/ In (t, x) (items h)) /\
     (NoDup (List.map fst (items h)) -> NoDup (List.map fst (items h')))).
Proof.
  unfold process, linked, parse_timestamp.
  destruct (line_href line) as [l|]; [|intros H; inversion H; auto].
  intros H. right.
  destruct (strptime (line_timestamp line)) as [date|]; simpl in H;
    [|discriminate].
  destruct (dict_mem str_eqb (items h) (line_title line)) eqn:M; simpl in H.
  - destruct (dict_get str_eqb (items h) (line_title line)) as [item|] eqn:G;
      [|discriminate].
    destruct (edit is_digit digit_value get_duration_info item
                (line_action line) date) as [[out item']|] eqn:E;
      simpl in H; [|discriminate].
    inversion H; subst; simpl.
    exists l, date, out, item, item'.
    split; [reflexivity|]. split; [reflexivity|].
    split; [left; apply dict_get_In; exact G|]. split; [exact E|].
    split; [intros t x; apply dict_set_In | apply dict_set_NoDup].
  - rewrite dict_get_set_same in H.
    destruct (edit is_digit digit_value get_duration_info
                (HistoryItem_init (line_title line) l)
                (line_action line) date) as [[out item']|] eqn:E;
      simpl in H; [|discriminate].
    inversion H; subst; simpl. rewrite dict_set_twice.
    exists l, date, out, (HistoryItem_init (line_title line) l), item'.
    split; [reflexivity|]. split; [reflexivity|].
    split; [right; reflexivity|]. split; [exact E|]. split.
    + intros t x. apply dict_set_In.
    + apply dict_set_NoDup.
Qed.

Lemma process_unlinked h line :
  linked line = false ->
  process is_digit digit_value get_duration_info strptime h line = Ok h.
Proof.
  unfold linked, process. destruct (line_href line); [discriminate|].
  reflexivity.
Qed.

(** X9: lines without a link do not count: a run over the lines is the run
    over the lines that carry a link, in result and in what is raised. *)
Theorem process_all_skips_unlinked lines : forall h,
  process_all is_digit digit_value get_duration_info strptime h lines
  = process_all is_digit digit_value get_duration_info strptime h
      (filter linked lines).
Proof.
  induction lines as [|line lines IH]; intros h; [reflexivity|].
  cbn [filter]. destruct (linked line) eqn:L.
  - cbn [process_all].
    destruct (process is_digit digit_value get_duration_info strptime h line);
      simpl; [apply IH | reflexivity].
  - cbn [process_all]. rewrite process_unlinked by exact L. simpl. apply IH.
Qed.

Lemma process_wf h line h' :
  process is_digit digit_value get_duration_info strptime h line = Ok h' ->
  ledger_wf h -> ledger_wf h'.
Proof.
  intros Hp [Hn Ht]. apply process_records in Hp.
  destruct Hp as [[_ ->] | (l & date & out & item & item' & _ & _ & Hitem & He & Hin & Hnd)].
  - split; assumption.
  - split; [apply Hnd; exact Hn|].
    intros t x Hx. destruct (Hin t x Hx) as [[-> ->] | Hold].
    + apply edit_href in He. destruct He as [_ He]. rewrite He.
      destruct Hitem as [Hi | ->]; [apply Ht; exact Hi | reflexivity].
    + apply Ht. exact Hold.
Qed.

(** X10: over a whole run the ledger keeps its shape: every title occurs
    once in it and every record sits under its own title. *)
Theorem ledger_stays_well_formed lines : forall h h',
  ledger_wf h ->
  process_all is_digit digit_value get_duration_info strptime h lines = Ok h' ->
  ledger_wf h'.
Proof.
  induction lines as [|line lines IH]; simpl; intros h h' Hwf Hp.
  - inversion Hp; subst. exact Hwf.
  - destruct (process is_digit digit_value get_duration_info strptime h line)
      as [h1|] eqn:E; simpl in Hp; [|discriminate].
    apply (IH h1 h'); [|exact Hp]. apply (process_wf h line h1 E Hwf).
Qed.

(** A property of records that new records have and [edit] keeps holds of
    every record after a run. *)
Lemma process_all_records (P : HistoryItem -> Prop) :
  (forall t l, P (HistoryItem_init t l)) ->
  (forall item action date out item',
     P item ->
     edit is_digit digit_value get_duration_info item action date
     = Ok (out, item') ->
     P item') ->
  forall lines h h',
    (forall t x, In (t, x) (items h) -> P x) ->
    process_all is_digit digit_value get_duration_info strptime h lines
    = Ok h' ->
    forall t x, In (t, x) (items h') -> P x.
Proof.
  intros Hinit Hedit.
  induction lines as [|line lines IH]; simpl; intros h h' Hh Hp.
  - inversion Hp; subst. exact Hh.
  - destruct (process is_digit digit_value get_duration_info strptime h line)
      as [h1|] eqn:E; simpl in Hp; [|discriminate].
    apply (IH h1 h'); [|exact Hp].
    apply process_records in E.
    destruct E as [[_ ->] | (l & date & out & item & item' & _ & _ & Hitem & He & Hin & _)];
      [exact Hh|].
    intros t x Hx. destruct (Hin t x Hx) as [[-> ->] | Hold].
    + apply (Hedit _ _ _ _ _ (match Hitem with
                              | or_introl Hi => Hh _ _ Hi
                              | or_intror Hi =>
                                eq_ind_r P (Hinit _ _) Hi
                              end) He).
    + apply (Hh _ _ Hold).
Qed.

Lemma sum_deltas_app ts p :
  sum_deltas (ts ++ [p]) = sum_deltas ts + snd p.
Proof.
  unfold sum_deltas. induction ts as [|q ts IH]; simpl; [lia|].
  rewrite IH. lia.
Qed.

Lemma edit_accounted item action date out item' :
  accounted get_duration_info item ->
  edit is_digit digit_value get_duration_info item action date
  = Ok (out, item') ->
  accounted get_duration_info item'.
Proof.
  unfold accounted. intros Ha He. apply edit_cases in He.
  destruct out as [| |n|n v].
  - subst item'. simpl. lia.
  - subst item'. exact Ha.
  - subst item'. simpl. rewrite sum_deltas_app. simpl. lia.
  - destruct He as (-> & _ & total & dur & Hl & _ & ->).
    simpl. rewrite sum_deltas_app. simpl.
    unfold total_of in *. rewrite Hl in *. lia.
Qed.

(** X11: after any run from the empty ledger, the event log of every record
    accounts for its counters: the episodes logged are [total_views] times
    the total of the title plus [current_episode]. *)
Theorem ledger_accounts_for_episodes lines h :
  process_all is_digit digit_value get_duration_info strptime
    History_init lines = Ok h ->
  forall t item, In (t, item) (items h) ->
    accounted get_duration_info item.
Proof.
  intros Hp.
  apply (process_all_records (accounted get_duration_info)) with
    (lines := lines) (h := History_init); [| |intros ? ? []|exact Hp].
  - intros t l. unfold accounted. simpl. lia.
  - intros item action date out item' Ha He.
    apply (edit_accounted item action date out item' Ha He).
Qed.

Lemma nondecreasing_snoc d : forall l,
  nondecreasing l -> Forall (fun e => e <= d) l -> nondecreasing (l ++ [d]).
Proof.
  induction l as [|x l IH]; simpl; intros Hs Hb.
  - split; [constructor | exact I].
  - destruct Hs as [Hx Hs]. inversion Hb as [|? ? Hxd Hb']; subst.
    split; [|apply IH; assumption].
    apply Forall_app. split; [exact Hx | constructor; [exact Hxd | constructor]].
Qed.

Lemma edit_log_days item action date out item' :
  edit is_digit digit_value get_duration_info item action date
  = Ok (out, item') ->
  log_days item' = [] \/
  log_days item' = log_days item \/
  log_days item' = log_days item ++ [date_of date].
Proof.
  intros He. apply edit_cases in He. unfold log_days.
  destruct out as [| |n|n v].
  - subst item'. left. reflexivity.
  - subst item'. right. left. reflexivity.
  - subst item'. right. right. simpl. rewrite map_app. reflexivity.
  - destruct He as [-> _]. right. right. simpl. rewrite map_app. reflexivity.
Qed.

(** The logs are in order and nothing in them is later than a line still to
    come. *)
Lemma logs_in_order_step lines : forall h h',
  nondecreasing (line_days strptime lines) ->
  (forall t x, In (t, x) (items h) ->
     nondecreasing (log_days x) /\
     forall e d, In e (log_days x) -> In d (line_days strptime lines) ->
                 e <= d) ->
  process_all is_digit digit_value get_duration_info strptime h lines = Ok h' ->
  forall t x, In (t, x) (items h') -> nondecreasing (log_days x).
Proof.
  induction lines as [|line lines IH]; intros h h' Hs Hinv Hp.
  - simpl in Hp. inversion Hp; subst. intros t x Hx. apply (Hinv t x Hx).
  - cbn [process_all] in Hp.
    destruct (process is_digit digit_value get_duration_info strptime h line)
      as [h1|] eqn:E; simpl in Hp; [|discriminate].
    apply process_records in E.
    destruct E as [[L ->] | (l & date & out & item & item' & Hl & Hd & Hitem & He & Hin & _)].
    + cbn [line_days] in Hs, Hinv. rewrite L in Hs, Hinv.
      apply (IH h h' Hs Hinv Hp).
    + cbn [line_days] in Hs, Hinv. unfold linked in Hs, Hinv.
      rewrite Hl, Hd in Hs, Hinv. destruct Hs as [Hfirst Hrest].
      apply (IH h1 h' Hrest); [|exact Hp].
      assert (Hitem' : nondecreasing (log_days item) /\
                       forall e, In e (log_days item) -> e <= date_of date).
      { destruct Hitem as [Hi | ->].
        - destruct (Hinv _ _ Hi) as [Hn Hb]. split; [exact Hn|].
          intros e Hein. apply (Hb e); [exact Hein | left; reflexivity].
        - split; [exact I | intros e []]. }
      destruct Hitem' as [Hn Hb].
      intros t x Hx. destruct (Hin t x Hx) as [[-> ->] | Hold].
      * destruct (edit_log_days _ _ _ _ _ He) as [R | [R | R]]; rewrite R.
        -- split; [exact I | intros e d []].
        -- split; [exact Hn|]. intros e d Hein Hdin.
           rewrite Forall_forall in Hfirst.
           specialize (Hb e Hein). specialize (Hfirst d Hdin). lia.
        -- split.
           ++ apply nondecreasing_snoc; [exact Hn|].
              apply Forall_forall. exact Hb.
           ++ intros e d Hein Hdin. rewrite Forall_forall in Hfirst.
              specialize (Hfirst d Hdin).
              apply in_app_or in Hein. destruct Hein as [Hein | [<- | []]];
                [specialize (Hb e Hein); lia | exact Hfirst].
      * destruct (Hinv _ _ Hold) as [Hn' Hb']. split; [exact Hn'|].
        intros e d Hein Hdin. apply (Hb' e d Hein). right. exact Hdin.
Qed.

(** X12: when the lines come in the order of their days, so does every
    event log: [process] never reorders, so the chronological order of the
    input is the order of each record's events. *)
Theorem logs_follow_input_order lines h :
  nondecreasing (line_days strptime lines) ->
  process_all is_digit digit_value get_duration_info strptime
    History_init lines = Ok h ->
  forall t item, In (t, item) (items h) -> nondecreasing (log_days item).
Proof.
  intros Hs Hp.
  apply (logs_in_order_step lines History_init h Hs); [|exact Hp].
  intros t x [].
Qed.

Lemma process_keeps_record h line h' t item :
  process is_digit digit_value get_duration_info strptime h line = Ok h' ->
  dict_get str_eqb (items h) t = Some item ->
  exists item', dict_get str_eqb (items h') t = Some item' /\
                href item' = href item /\ title item' = title item.
Proof.
  intros Hp Hg. destruct (line_href line) as [l|] eqn:Hl.
  - destruct (process_linked is_digit digit_value get_duration_info strptime
                h line l h' Hl Hp)
      as (date & out & item' & _ & He & Hs & Ho & _).
    destruct (str_eq_dec t (line_title line)) as [->|Hne].
    + exists item'. split; [exact Hs|].
      unfold routed in He. rewrite Hg in He.
      apply edit_href in He. exact He.
    + exists item. rewrite Ho by exact Hne. auto.
  - unfold process in Hp. rewrite Hl in Hp. inversion Hp; subst. eauto.
Qed.

(** X13: nothing leaves the ledger.  A title that has a record keeps one for
    the rest of the run, under the same title and with the same link: a
    removal action clears the record where it is. *)
Theorem ledger_keeps_records lines : forall h h' t item,
  process_all is_digit digit_value get_duration_info strptime h lines = Ok h' ->
  dict_get str_eqb (items h) t = Some item ->
  exists item', dict_get str_eqb (items h') t = Some item' /\
                href item' = href item /\ title item' = title item.
Proof.
  induction lines as [|line lines IH]; simpl; intros h h' t item Hp Hg.
  - inversion Hp; subst. eauto.
  - destruct (process is_digit digit_value get_duration_info strptime h line)
      as [h1|] eqn:E; simpl in Hp; [|discriminate].
    destruct (process_keeps_record h line h1 t item E Hg)
      as (item1 & Hg1 & Hh1 & Ht1).
    destruct (IH h1 h' t item1 Hp Hg1) as (item' & Hg' & Hh' & Ht').
    exists item'. split; [exact Hg'|]. split; congruence.
Qed.

End RunProperties.

(* ------------------------------------------------------------------ *)
(** ** How far back the series goes *)






Lemma latest_day_unique events a b :
  latest_day events a -> latest_day events b -> a = b.
Proof.
  intros [Ha1 Ha2] [Hb1 Hb2].
  specialize (Ha2 b Hb1). specialize (Hb2 a Ha1). lia.
Qed.

Lemma earliest_day_unique events a b :
  earliest_day events a -> earliest_day events b -> a = b.
Proof.
  intros [Ha1 Ha2] [Hb1 Hb2].
  specialize (Ha2 b Hb1). specialize (Hb2 a Ha1). lia.
Qed.

Section SeriesExtent.

Variable get_duration_info : str -> result (Z * Z).




End SeriesExtent.

(* ------------------------------------------------------------------ *)
(** ** The count pattern and the action texts of the site *)

Lemma of_phrases_no_digits is_digit piece :
  phrases_no_digits is_digit ->
  of_phrases piece = true ->
  Forall (fun c => is_digit c = false) piece.
Proof.
  unfold phrases_no_digits, of_phrases. intros Hp Hb.
  rewrite forallb_forall in Hb. rewrite Forall_forall in *.
  intros c Hc. specialize (Hb c Hc). apply existsb_exists in Hb.
  destruct Hb as (x & Hx & E). apply N.eqb_eq in E. subst x.
  apply Hp. exact Hx.
Qed.

Lemma flat_map_nil {A B} (f : A -> list B) l :
  Forall (fun a => f a = []) l -> flat_map f l = [].
Proof.
  induction 1 as [|a l Ha _ IH]; simpl; [reflexivity|].
  rewrite Ha, IH. reflexivity.
Qed.

Section CountPattern.

Variable is_digit : char -> bool.

Hypothesis space_no_digit : is_digit SPACE = false.

Lemma EPISODES_COUNT_REGEX_eq :
  EPISODES_COUNT_REGEX
  = RSeq (RGroup (RPlus RDigit)) (RLit (SPACE :: ustr "эпизод")).
Proof. vm_compute. reflexivity. Qed.

(** Where [\d+] can stop inside a run of digits, no space follows, if none
    follows the run. *)
Lemma plus_digit_no_space t : forall ds fuel,
  Forall (fun c => is_digit c = true) ds ->
  no_digit_ahead is_digit t ->
  no_space_ahead t ->
  Forall (fun c : cand => no_space_ahead (snd c))
         (plus_iter (rmatch is_digit RDigit) fuel (ds ++ t)).
Proof.
  induction ds as [|d ds IH]; intros fuel Hd Ht Hs.
  - cbn [app]. rewrite plus_digit_none by exact Ht. constructor.
  - inversion Hd as [|? ? Hd1 Hd2]; subst.
    destruct fuel as [|fuel]; [constructor|].
    cbn [plus_iter app].
    change (rmatch is_digit RDigit (d :: ds ++ t))
      with (if is_digit d then [([] : list str, ds ++ t)] else []).
    rewrite Hd1. cbn [flat_map snd fst app]. rewrite app_nil_r.
    apply Forall_app. split.
    + destruct (List.length (ds ++ t) <? List.length (d :: ds ++ t))%nat;
        [|constructor].
      apply Forall_map. cbn [snd]. apply IH; assumption.
    + constructor; [|constructor]. cbn [snd].
      destruct ds as [|d' ds]; [exact Hs|].
      inversion Hd2; subst. cbn [app no_space_ahead].
      intros ->. congruence.
Qed.

Lemma rmatch_count_no_space s :
  (forall fuel, Forall (fun c : cand => no_space_ahead (snd c))
                  (plus_iter (rmatch is_digit RDigit) fuel s)) ->
  rmatch is_digit EPISODES_COUNT_REGEX s = [].
Proof.
  intros H. rewrite EPISODES_COUNT_REGEX_eq, rmatch_seq, rmatch_group_plus.
  apply flat_map_nil. apply Forall_map.
  eapply Forall_impl; [|apply H].
  intros [g r] Hr. cbn [snd fst] in *.
  destruct r as [|x r]; [reflexivity|].
  cbn [RLit]. rewrite rmatch_seq. cbn [rmatch].
  destruct (N.eqb x SPACE) eqn:E; [|reflexivity].
  apply N.eqb_eq in E. simpl in Hr. congruence.
Qed.

(** A run of digits that is not followed by a space holds no count. *)
Lemma findall_count_skip_run t : forall ds,
  Forall (fun c => is_digit c = true) ds ->
  no_digit_ahead is_digit t ->
  no_space_ahead t ->
  findall is_digit EPISODES_COUNT_REGEX (ds ++ t)
  = findall is_digit EPISODES_COUNT_REGEX t.
Proof.
  induction ds as [|d ds IH]; intros Hd Ht Hs; [reflexivity|].
  unfold findall in *. cbn [app findall_from].
  change (d :: ds ++ t) with ((d :: ds) ++ t).
  rewrite rmatch_count_no_space
    by (intros fuel; apply plus_digit_no_space; assumption).
  inversion Hd; subst. apply IH; assumption.
Qed.

Lemma findall_count_no_digit c rest :
  is_digit c = false ->
  findall is_digit EPISODES_COUNT_REGEX (c :: rest)
  = findall is_digit EPISODES_COUNT_REGEX rest.
Proof.
  intros H. unfold findall. cbn [findall_from].
  rewrite rmatch_count_no_space; [reflexivity|].
  intros fuel. rewrite plus_digit_none by exact H. constructor.
Qed.

Lemma findall_count_no_digits pre rest :
  Forall (fun c => is_digit c = false) pre ->
  findall is_digit EPISODES_COUNT_REGEX (pre ++ rest)
  = findall is_digit EPISODES_COUNT_REGEX rest.
Proof.
  induction 1 as [|c pre Hc _ IH]; [reflexivity|].
  simpl. rewrite findall_count_no_digit by exact Hc. exact IH.
Qed.

Lemma findall_count_nil : findall is_digit EPISODES_COUNT_REGEX [] = [].
Proof.
  unfold findall. cbn [findall_from].
  rewrite rmatch_count_no_space; [reflexivity|].
  intros fuel. rewrite plus_digit_none by exact I. constructor.
Qed.

(** A run of digits followed by " эпизод" is matched whole, the digits
    captured. *)
Lemma rmatch_count ds rest :
  digit_string is_digit ds ->
  exists more,
    rmatch is_digit EPISODES_COUNT_REGEX (ds ++ ustr " эпизод" ++ rest)
    = ([ds], rest) :: more.
Proof.
  intros Hds. rewrite EPISODES_COUNT_REGEX_eq.
  change (ustr " эпизод" ++ rest)
    with (SPACE :: 1101%N :: 1087%N :: 1080%N :: 1079%N :: 1086%N :: 1076%N
          :: rest).
  set (t := SPACE :: 1101%N :: 1087%N :: 1080%N :: 1079%N :: 1086%N :: 1076%N
            :: rest).
  destruct (plus_digit_head is_digit t ds (S (List.length (ds ++ t))) Hds
              space_no_digit) as [more E].
  { rewrite length_app. lia. }
  rewrite rmatch_seq, rmatch_group_plus, E.
  cbn [List.map flat_map fst snd].
  rewrite firstn_app_length_diff.
  subst t. vm_compute (ustr "эпизод").
  cbn [RLit rmatch flat_map List.map app fst snd N.eqb Pos.eqb SPACE].
  eauto.
Qed.

Lemma findall_count_head pre ds rest :
  Forall (fun c => is_digit c = false) pre ->
  digit_string is_digit ds ->
  exists more,
    findall is_digit EPISODES_COUNT_REGEX (pre ++ ds ++ ustr " эпизод" ++ rest)
    = ds :: more.
Proof.
  intros Hpre Hds. rewrite findall_count_no_digits by exact Hpre.
  destruct (rmatch_count ds rest Hds) as [more E].
  unfold findall. destruct ds as [|d ds]; [destruct Hds; congruence|].
  cbn [app findall_from] in *. rewrite E. cbn [fst hd]. eauto.
Qed.

End CountPattern.

(* ------------------------------------------------------------------ *)
(** ** The ordinal pattern on the ending "-го" *)

Section OrdinalPatternGenitive.

Variable is_digit : char -> bool.

Hypothesis hyphen_no_digit : is_digit 45%N = false.

(** A run of digits followed by "-го" is matched whole, the digits
    captured. *)
Lemma rmatch_marker_go ds rest :
  digit_string is_digit ds ->
  exists more,
    rmatch is_digit SINGLE_EPISODE_REGEX (ds ++ ustr "-го" ++ rest)
    = ([ds], rest) :: more.
Proof.
  intros Hds. rewrite SINGLE_EPISODE_REGEX_eq.
  change (ustr "-го" ++ rest) with (45%N :: 1075%N :: 1086%N :: rest).
  set (t := 45%N :: 1075%N :: 1086%N :: rest).
  destruct (plus_digit_head is_digit t ds (S (List.length (ds ++ t))) Hds
              hyphen_no_digit) as [more E].
  { rewrite length_app. lia. }
  rewrite rmatch_seq, rmatch_group_plus, E.
  cbn [List.map flat_map fst snd].
  rewrite firstn_app_length_diff.
  subst t. cbn [rmatch flat_map List.map app fst snd N.eqb Pos.eqb].
  eauto.
Qed.

Lemma findall_marker_go ds rest :
  digit_string is_digit ds ->
  findall is_digit SINGLE_EPISODE_REGEX (ds ++ ustr "-го" ++ rest)
  = ds :: findall is_digit SINGLE_EPISODE_REGEX rest.
Proof.
  intros Hds. destruct (rmatch_marker_go ds rest Hds) as [more E].
  unfold findall. destruct ds as [|d ds]; [destruct Hds; congruence|].
  cbn [app findall_from] in *. rewrite E. cbn [fst snd hd]. f_equal.
  change (ustr "-го" ++ rest) with ([45%N; 1075%N; 1086%N] ++ rest).
  rewrite app_assoc.
  rewrite <- (findall_from_skip is_digit SINGLE_EPISODE_REGEX rest
                (ds ++ [45%N; 1075%N; 1086%N])).
  f_equal. cbn [List.length]. rewrite !length_app. cbn [List.length].
  unfold char. lia.
Qed.

End OrdinalPatternGenitive.

(* ------------------------------------------------------------------ *)
(** ** The action texts of the site, for every number *)

Lemma digit_string_not_in is_digit c ds :
  is_digit c = false -> digit_string is_digit ds -> ~ In c ds.
Proof.
  intros Hc [_ Hd] Hin. rewrite Forall_forall in Hd.
  apply Hd in Hin. congruence.
Qed.

Lemma phrases_char_no_digit is_digit c :
  phrases_no_digits is_digit ->
  existsb (N.eqb c) phrase_chars = true ->
  is_digit c = false.
Proof.
  intros Hp Hc.
  assert (H : Forall (fun c => is_digit c = false) [c]).
  { apply of_phrases_no_digits; [exact Hp|].
    unfold of_phrases. cbn [forallb]. rewrite Hc. reflexivity. }
  inversion H; assumption.
Qed.

Section ActionTexts.

Variable is_digit : char -> bool.
Variable digit_value : char -> Z.
Variable get_duration_info : str -> result (Z * Z).

(** X16: "просмотрено N эпизод..." records N episodes, for every number N
    and whatever follows the word, as long as the text does not hold the
    removal phrase. *)
Theorem watched_count_delta self date ds rest :
  phrases_no_digits is_digit ->
  digit_string is_digit ds ->
  find (ustr "просмотрено " ++ ds ++ ustr " эпизод" ++ rest) REMOVED_PHRASE
  = -1 ->
  edit is_digit digit_value get_duration_info self
    (ustr "просмотрено " ++ ds ++ ustr " эпизод" ++ rest) date
  = Ok (PartialProgress (int digit_value ds),
        watch self date (int digit_value ds)).
Proof.
  intros Hp Hds Hrem.
  assert (Hsp : is_digit SPACE = false)
    by (apply phrases_char_no_digit; [exact Hp | vm_compute; reflexivity]).
  assert (Hpre : Forall (fun c => is_digit c = false) (ustr "просмотрено "))
    by (apply of_phrases_no_digits; [exact Hp | vm_compute; reflexivity]).
  destruct (findall_count_head is_digit Hsp (ustr "просмотрено ") ds rest
              Hpre Hds) as [more Hall].
  assert (Hview :
    find (ustr "просмотрено " ++ ds ++ ustr " эпизод" ++ rest) VIEW_PHRASE
    <> -1).
  { change (ustr "просмотрено ") with (VIEW_PHRASE ++ ustr "ено ").
    rewrite <- app_assoc.
    apply (find_present [] VIEW_PHRASE). }
  destruct (edit_count is_digit digit_value get_duration_info self _ date
              ds more Hrem Hview Hall) as (w & Hw & E).
  rewrite split_no_sep in Hw
    by (apply (digit_string_not_in is_digit); assumption).
  simpl in Hw. inversion Hw; subst w. exact E.
Qed.

(** X17: "просмотрены с A-го по B-й эпизоды" records B - A + 1 episodes,
    for all numbers A and B. *)
Theorem watched_range_delta self date a b :
  phrases_no_digits is_digit ->
  digit_string is_digit a ->
  digit_string is_digit b ->
  edit is_digit digit_value get_duration_info self
    (ustr "просмотрены с " ++ a ++ ustr "-го по " ++ b ++ ustr "-й эпизоды")
    date
  = Ok (PartialProgress (int digit_value b - int digit_value a + 1),
        watch self date (int digit_value b - int digit_value a + 1)).
Proof.
  intros Hp Ha Hb.
  assert (Hsp : is_digit SPACE = false)
    by (apply phrases_char_no_digit; [exact Hp | vm_compute; reflexivity]).
  assert (Hhy : is_digit 45%N = false)
    by (apply phrases_char_no_digit; [exact Hp | vm_compute; reflexivity]).
  assert (Hu : is_digit 1091%N = false)
    by (apply phrases_char_no_digit; [exact Hp | vm_compute; reflexivity]).
  assert (H1 : Forall (fun c => is_digit c = false) (ustr "просмотрены с "))
    by (apply of_phrases_no_digits; [exact Hp | vm_compute; reflexivity]).
  assert (H2 : Forall (fun c => is_digit c = false) (ustr " по "))
    by (apply of_phrases_no_digits; [exact Hp | vm_compute; reflexivity]).
  assert (H2' : Forall (fun c => is_digit c = false) (ustr "-го по "))
    by (apply of_phrases_no_digits; [exact Hp | vm_compute; reflexivity]).
  assert (H3 : Forall (fun c => is_digit c = false) (ustr " эпизоды"))
    by (apply of_phrases_no_digits; [exact Hp | vm_compute; reflexivity]).
  assert (H3' : Forall (fun c => is_digit c = false) (ustr "-й эпизоды"))
    by (apply of_phrases_no_digits; [exact Hp | vm_compute; reflexivity]).
  set (action := ustr "просмотрены с " ++ a ++ ustr "-го по " ++ b
                 ++ ustr "-й эпизоды").
  assert (Hrem : find action REMOVED_PHRASE = -1).
  { replace REMOVED_PHRASE with (1091%N :: ustr "далено из списка")
      by (vm_compute; reflexivity).
    apply find_char_absent. subst action.
    rewrite !in_app_iff.
    intros [H|[H|[H|[H|H]]]].
    - vm_compute in H. intuition discriminate.
    - revert H. apply (digit_string_not_in is_digit); assumption.
    - vm_compute in H. intuition discriminate.
    - revert H. apply (digit_string_not_in is_digit); assumption.
    - vm_compute in H. intuition discriminate. }
  assert (Hview : find action VIEW_PHRASE <> -1).
  { subst action.
    change (ustr "просмотрены с ") with (VIEW_PHRASE ++ ustr "ены с ").
    rewrite <- app_assoc.
    apply (find_present [] VIEW_PHRASE). }
  assert (Hcount : findall is_digit EPISODES_COUNT_REGEX action = []).
  { subst action.
    rewrite findall_count_no_digits by exact H1.
    rewrite findall_count_skip_run;
      [| exact Hsp | apply Ha | exact Hhy | discriminate].
    rewrite findall_count_no_digits by exact H2'.
    rewrite findall_count_skip_run;
      [| exact Hsp | apply Hb | exact Hhy | discriminate].
    rewrite <- (app_nil_r (ustr "-й эпизоды")).
    rewrite findall_count_no_digits by exact H3'.
    apply findall_count_nil. }
  assert (Hord : findall is_digit SINGLE_EPISODE_REGEX action = [a; b]).
  { subst action.
    rewrite findall_no_digits by exact H1.
    change (ustr "-го по ") with (ustr "-го" ++ ustr " по ").
    rewrite <- (app_assoc (ustr "-го")).
    rewrite findall_marker_go by assumption.
    rewrite findall_no_digits by exact H2.
    change (ustr "-й эпизоды") with (ustr "-й" ++ ustr " эпизоды").
    rewrite findall_marker by assumption.
    rewrite <- (app_nil_r (ustr " эпизоды")).
    rewrite findall_no_digits by exact H3.
    rewrite findall_nil. reflexivity. }
  assert (Hrange : find action RANGE_PHRASE <> -1).
  { subst action.
    change (ustr "-го по ") with (ustr "-го" ++ RANGE_PHRASE).
    rewrite <- (app_assoc (ustr "-го")).
    rewrite (app_assoc (ustr "просмотрены с ")).
    rewrite (app_assoc (ustr "просмотрены с " ++ a)).
    apply find_present. }
  rewrite edit_ordinals; try assumption; [|rewrite Hord; discriminate].
  apply Z.eqb_neq in Hrange. rewrite Hrange, Hord. reflexivity.
Qed.

End ActionTexts.

(* ------------------------------------------------------------------ *)
(** ** Texts that list ordinals *)

Section OrdinalTexts.

Variable is_digit : char -> bool.
Variable digit_value : char -> Z.
Variable get_duration_info : str -> result (Z * Z).

Hypothesis phrases : phrases_no_digits is_digit.

Lemma findall_ordinal_text tail : forall parts,
  Forall (ordinal_part is_digit) parts ->
  Forall (fun c => is_digit c = false) tail ->
  findall is_digit SINGLE_EPISODE_REGEX (ordinal_text parts tail)
  = List.map snd parts.
Proof.
  assert (Hhy : is_digit 45%N = false)
    by (apply phrases_char_no_digit; [exact phrases | vm_compute; reflexivity]).
  intros parts Hparts Htail. unfold ordinal_text.
  induction Hparts as [|[sep n] parts [Hsep Hn] _ IH]; simpl.
  - rewrite <- (app_nil_r tail), findall_no_digits by exact Htail.
    apply findall_nil.
  - simpl in Hsep, Hn. rewrite <- !app_assoc.
    rewrite findall_no_digits by exact Hsep.
    rewrite findall_marker by assumption. f_equal. exact IH.
Qed.

Lemma findall_count_ordinal_text tail : forall parts,
  Forall (ordinal_part is_digit) parts ->
  Forall (fun c => is_digit c = false) tail ->
  findall is_digit EPISODES_COUNT_REGEX (ordinal_text parts tail) = [].
Proof.
  assert (Hsp : is_digit SPACE = false)
    by (apply phrases_char_no_digit; [exact phrases | vm_compute; reflexivity]).
  assert (Hend : Forall (fun c => is_digit c = false) (ustr "-й"))
    by (apply of_phrases_no_digits; [exact phrases | vm_compute; reflexivity]).
  assert (Hhy : no_digit_ahead is_digit (ustr "-й"))
    by (inversion Hend; assumption).
  intros parts Hparts Htail. unfold ordinal_text.
  induction Hparts as [|[sep n] parts [Hsep Hn] _ IH]; simpl.
  - rewrite <- (app_nil_r tail), findall_count_no_digits by exact Htail.
    apply findall_count_nil.
  - simpl in Hsep, Hn. rewrite <- !app_assoc.
    rewrite findall_count_no_digits by exact Hsep.
    rewrite findall_count_skip_run;
      [| exact Hsp | apply Hn | exact Hhy | discriminate].
    rewrite findall_count_no_digits by exact Hend.
    exact IH.
Qed.

(** X18: a text that lists episodes as ordinals, "просмотрены 1-й, 2-й и
    3-й эпизоды", records as many episodes as ordinals are written,
    whatever the numbers are: a number written twice counts twice, and a
    single high ordinal counts one. *)
Theorem watched_list_delta self date parts :
  parts <> [] ->
  Forall (ordinal_part is_digit) parts ->
  find (ustr "просмотрены" ++ ordinal_text parts (ustr " эпизоды"))
       REMOVED_PHRASE = -1 ->
  find (ustr "просмотрены" ++ ordinal_text parts (ustr " эпизоды"))
       RANGE_PHRASE = -1 ->
  edit is_digit digit_value get_duration_info self
    (ustr "просмотрены" ++ ordinal_text parts (ustr " эпизоды")) date
  = Ok (PartialProgress (Z.of_nat (List.length parts)),
        watch self date (Z.of_nat (List.length parts))).
Proof.
  intros Hne Hparts Hrem Hrange.
  assert (H1 : Forall (fun c => is_digit c = false) (ustr "просмотрены"))
    by (apply of_phrases_no_digits; [exact phrases | vm_compute; reflexivity]).
  assert (H3 : Forall (fun c => is_digit c = false) (ustr " эпизоды"))
    by (apply of_phrases_no_digits; [exact phrases | vm_compute; reflexivity]).
  set (action := ustr "просмотрены" ++ ordinal_text parts (ustr " эпизоды"))
    in *.
  assert (Hview : find action VIEW_PHRASE <> -1).
  { subst action.
    replace (ustr "просмотрены") with (VIEW_PHRASE ++ ustr "ены")
      by (vm_compute; reflexivity).
    rewrite <- app_assoc.
    apply (find_present [] VIEW_PHRASE). }
  assert (Hcount : findall is_digit EPISODES_COUNT_REGEX action = []).
  { subst action. rewrite findall_count_no_digits by exact H1.
    apply findall_count_ordinal_text; assumption. }
  assert (Hord : findall is_digit SINGLE_EPISODE_REGEX action
                 = List.map snd parts).
  { subst action. rewrite findall_no_digits by exact H1.
    apply findall_ordinal_text; assumption. }
  rewrite edit_ordinals; try assumption.
  - rewrite Hrange, Hord, length_map. reflexivity.
  - rewrite Hord. destruct parts; [congruence | discriminate].
Qed.

End OrdinalTexts.

(* ------------------------------------------------------------------ *)
(** ** The scan under a step that is not positive *)

Lemma loop_left_stay dates episodes span cur l vs : forall fuel,
  (0 <=? l) && (cur - item_at dates l <? span) = false ->
  loop_left fuel dates episodes span cur l vs = (l, vs).
Proof.
  intros [|fuel] H; [reflexivity|]. cbn [loop_left]. rewrite H. reflexivity.
Qed.

Lemma loop_left_fst dates episodes span cur : forall fuel l vs vs',
  fst (loop_left fuel dates episodes span cur l vs)
  = fst (loop_left fuel dates episodes span cur l vs').
Proof.
  induction fuel as [|fuel IH]; intros l vs vs'; [reflexivity|].
  cbn [loop_left].
  destruct ((0 <=? l) && (cur - item_at dates l <? span)); [|reflexivity].
  apply IH.
Qed.

Lemma count_le_nth c l :
  nondecreasing l -> (1 <= count_le c l)%nat ->
  nth (count_le c l - 1) l 0 <= c.
Proof.
  intros Hs Hc. pose proof (count_le_length c l) as Hlen.
  destruct (Z_le_gt_dec (nth (count_le c l - 1) l 0) c) as [H|H];
    [exact H|].
  assert (Hj : (count_le c l <= count_le c l - 1)%nat)
    by (apply count_le_above; [exact Hs | lia | lia]).
  lia.
Qed.

Lemma pass_current_date dates episodes span step st :
  current_date (pass dates episodes span step st) = current_date st - step.
Proof.
  unfold pass.
  destruct (loop_right _ _ _ _ _ _) as [r vs1].
  destruct (loop_left _ _ _ _ _ _ _) as [l vs2].
  reflexivity.
Qed.

Section ScanStall.

Variables dates episodes : list Z.
Variables span step : Z.

Hypothesis dates_sorted : nondecreasing dates.
Hypothesis same_length : List.length episodes = List.length dates.
Hypothesis dates_nonempty : dates <> [].
Hypothesis step_nonpos : step <= 0.
Hypothesis long_history : hd 0 dates <= last_of dates - span.

(** Once stalled, a pass leaves [left] where it is. *)
Lemma pass_stalled st :
  stalled dates span st ->
  stalled dates span (pass dates episodes span step st) /\
  current_date (pass dates episodes span step st) = current_date st - step.
Proof.
  intros [H0 Hd]. unfold pass.
  destruct (loop_right (Z.to_nat (right st + 1)) dates episodes
              (current_date st - step) (right st)
              (vals st ++ [last_of (vals st)])) as [r vs1].
  rewrite loop_left_stay.
  - split; [split|]; cbn [left current_date]; lia.
  - apply andb_false_iff. right. apply Z.ltb_ge. lia.
Qed.

(** The first pass stops [left] on the last date that is [span] days or
    more before the latest one. *)
Lemma first_pass_stalled :
  stalled dates span
    (pass dates episodes span step
       {| current_date := last_of dates + step;
          right := Z.of_nat (List.length dates) - 1;
          left := Z.of_nat (List.length dates) - 1;
          keys := [last_of dates + step];
          vals := [0] |}).
Proof.
  unfold pass. cbn [current_date right left keys vals].
  destruct (loop_right (Z.to_nat (Z.of_nat (List.length dates) - 1 + 1))
              dates episodes (last_of dates + step - step)
              (Z.of_nat (List.length dates) - 1) ([0] ++ [last_of [0]]))
    as [r vs1].
  replace (Z.to_nat (Z.of_nat (List.length dates) - 1 + 1))
    with (List.length dates) by lia.
  set (cur := last_of dates + step - step).
  pose proof (loop_left_fst dates episodes span cur (List.length dates)
                (Z.of_nat (List.length dates) - 1) vs1 ([] ++ [0])) as E.
  rewrite (loop_left_spec dates episodes span dates_sorted same_length)
    in E by (try apply count_le_length; lia).
  destruct (loop_left (List.length dates) dates episodes span cur
              (Z.of_nat (List.length dates) - 1) vs1) as [l vs2].
  cbn [fst] in E. subst l.
  assert (Hc : (1 <= count_le (cur - span) dates)%nat).
  { apply count_le_pos. exists (hd 0 dates). split.
    - apply nondecreasing_first; assumption.
    - subst cur. lia. }
  pose proof (count_le_nth (cur - span) dates dates_sorted Hc) as Hn.
  split; cbn [left current_date]; [lia|].
  unfold item_at.
  replace (Z.to_nat (Z.of_nat (count_le (cur - span) dates) - 1))
    with (count_le (cur - span) dates - 1)%nat by lia.
  exact Hn.
Qed.

(** With a step of zero the date stays where it is, and a stalled loop goes
    on for ever. *)
Lemma loop_stalled_for_ever : forall fuel st,
  step = 0 ->
  MINORDINAL <= current_date st <= MAXORDINAL ->
  stalled dates span st ->
  loop fuel dates episodes span step st = None.
Proof.
  induction fuel as [|fuel IH]; intros st Hz Hr H; [reflexivity|].
  cbn [loop]. destruct (pass_stalled st H) as [H' Hc].
  destruct H as [H0 Hd].
  replace (0 <=? left st) with true by lia.
  rewrite scan_step_in_range by lia.
  apply IH; [exact Hz | rewrite Hc; lia | exact H'].
Qed.

Lemma scan_stalls fuel :
  step = 0 ->
  MINORDINAL <= last_of dates <= MAXORDINAL ->
  Z.abs span <= MAX_DELTA_DAYS ->
  scan fuel dates episodes span step = None.
Proof.
  intros Hz Hr Hs. unfold scan, timedelta, date_add.
  replace (Z.abs step <=? MAX_DELTA_DAYS) with true
    by (unfold MAX_DELTA_DAYS; lia).
  replace (Z.abs span <=? MAX_DELTA_DAYS) with true by lia.
  replace ((MINORDINAL <=? last_of dates + step)
           && (last_of dates + step <=? MAXORDINAL)) with true
    by (symmetry; apply andb_true_iff; split; apply Z.leb_le; lia).
  destruct fuel as [|fuel]; [reflexivity|].
  cbn [loop left].
  assert (Hlen : (0 < List.length dates)%nat)
    by (destruct dates; [congruence | simpl; lia]).
  replace (0 <=? Z.of_nat (List.length dates) - 1) with true by lia.
  rewrite scan_step_in_range by (cbn [current_date]; lia).
  apply loop_stalled_for_ever; [exact Hz | | apply first_pass_stalled].
  rewrite pass_current_date. cbn [current_date]. lia.
Qed.

(** With a step below zero the date of a stalled loop moves forward until it
    leaves the calendar.  [m] bounds the days still to go. *)
Lemma loop_stalled_overflows : forall (m : nat) st,
  step < 0 ->
  stalled dates span st ->
  MAXORDINAL - (current_date st - step) < Z.of_nat m ->
  forall fuel, (S m <= fuel)%nat ->
    loop fuel dates episodes span step st = Some (Err OverflowError).
Proof.
  induction m as [|m IH]; intros st Hneg H Hm fuel Hf;
    (destruct fuel as [|fuel]; [lia|]);
    cbn [loop]; destruct (pass_stalled st H) as [H' Hc];
    destruct H as [H0 Hd];
    replace (0 <=? left st) with true by lia.
  - rewrite scan_step_out_of_range by lia. reflexivity.
  - destruct (Z_le_gt_dec MINORDINAL (current_date st - step)) as [Hlo | Hlo];
      [destruct (Z_le_gt_dec (current_date st - step) MAXORDINAL)
         as [Hhi | Hhi]|].
    + rewrite scan_step_in_range by lia.
      apply IH; [exact Hneg | exact H' | rewrite Hc; lia | lia].
    + rewrite scan_step_out_of_range by lia. reflexivity.
    + rewrite scan_step_out_of_range by lia. reflexivity.
Qed.

Lemma scan_overflows :
  step < 0 ->
  exists fuel0,
    forall fuel, (fuel0 <= fuel)%nat ->
      scan fuel dates episodes span step = Some (Err OverflowError).
Proof.
  intros Hneg. unfold scan, timedelta, date_add.
  destruct (Z.abs step <=? MAX_DELTA_DAYS); [|exists O; reflexivity].
  destruct (Z.abs span <=? MAX_DELTA_DAYS); [|exists O; reflexivity].
  destruct ((MINORDINAL <=? last_of dates + step)
            && (last_of dates + step <=? MAXORDINAL));
    [|exists O; reflexivity].
  set (init := {| current_date := last_of dates + step;
                  right := Z.of_nat (List.length dates) - 1;
                  left := Z.of_nat (List.length dates) - 1;
                  keys := [last_of dates + step];
                  vals := [0] |}).
  assert (Hlen : (0 < List.length dates)%nat)
    by (destruct dates; [congruence | simpl; lia]).
  destruct (Z_le_gt_dec MINORDINAL (last_of dates)) as [Hlo | Hlo];
    [destruct (Z_le_gt_dec (last_of dates) MAXORDINAL) as [Hhi | Hhi]|].
  - pose proof (pass_current_date dates episodes span step init) as Hc.
    cbn [current_date init] in Hc.
    exists (S (S (Z.to_nat (MAXORDINAL - last_of dates + step + 1)))).
    intros [|fuel] Hf; [lia|]. cbn [loop]. cbn [left init].
    replace (0 <=? Z.of_nat (List.length dates) - 1) with true by lia.
    rewrite scan_step_in_range by (cbn [current_date init]; lia).
    apply (loop_stalled_overflows
             (Z.to_nat (MAXORDINAL - last_of dates + step + 1)));
      [exact Hneg | apply first_pass_stalled | | lia].
    fold init. rewrite Hc. lia.
  - exists 1%nat. intros [|fuel] Hf; [lia|]. cbn [loop]. cbn [left init].
    replace (0 <=? Z.of_nat (List.length dates) - 1) with true by lia.
    rewrite scan_step_out_of_range by (cbn [current_date init]; lia).
    reflexivity.
  - exists 1%nat. intros [|fuel] Hf; [lia|]. cbn [loop]. cbn [left init].
    replace (0 <=? Z.of_nat (List.length dates) - 1) with true by lia.
    rewrite scan_step_out_of_range by (cbn [current_date init]; lia).
    reflexivity.
Qed.

End ScanStall.

Section ScanLeavesCalendar.

Variables dates episodes : list Z.
Variables span step : Z.

Hypothesis dates_sorted : nondecreasing dates.
Hypothesis same_length : List.length episodes = List.length dates.
Hypothesis dates_nonempty : dates <> [].
Hypothesis span_pos : 0 < span.
Hypothesis step_pos : 0 < step.
Hypothesis first_min : MINORDINAL <= hd 0 dates.
Hypothesis last_max : last_of dates + step <= MAXORDINAL.

(** [j] more passes, each on a date that leaves a date on or before its
    trailing edge, and then a pass on a date before the calendar. *)
Lemma loop_leaves_calendar : forall (j : nat) n vs st,
  scan_inv dates episodes span step n vs st ->
  0 <= left st ->
  hd 0 dates + span <= last_of dates - Z.of_nat (n + j - 1) * step ->
  (j = O -> MINORDINAL <= last_of dates - Z.of_nat n * step + step) ->
  last_of dates - Z.of_nat (n + j) * step < MINORDINAL ->
  forall fuel, (S j <= fuel)%nat ->
    loop fuel dates episodes span step st = Some (Err OverflowError).
Proof.
  induction j as [|j IH]; intros n vs st Hinv Hl Hgo H0 Hout fuel Hf;
    (destruct fuel as [|fuel]; [lia|]);
    cbn [loop]; replace (0 <=? left st) with true by lia;
    assert (Hc : current_date st - step = last_of dates - Z.of_nat n * step)
      by (destruct Hinv as (_ & _ & _ & Hc & _); lia).
  - replace (n + 0)%nat with n in Hout by lia.
    rewrite scan_step_out_of_range by lia. reflexivity.
  - destruct (pass_inv dates episodes span step dates_sorted same_length
                span_pos step_pos n vs st Hinv) as (v & Hinv' & Hcur' & Hleft').
    assert (Hge : hd 0 dates + span <= last_of dates - Z.of_nat n * step)
      by nia.
    assert (Hr : MINORDINAL <= current_date st - step <= MAXORDINAL)
      by (rewrite Hc; nia).
    rewrite scan_step_in_range by first [exact Hr | assumption].
    apply (IH (S n) (vs ++ [v])); try assumption; try lia.
    rewrite Hleft', Hc.
    assert (Hp : (1 <= count_le (last_of dates - Z.of_nat n * step - span)
                        dates)%nat).
    { apply count_le_pos. exists (hd 0 dates). split.
      - apply nondecreasing_first; assumption.
      - lia. }
    lia.
Qed.

Lemma scan_leaves_calendar (k : nat) :
  span <= MAX_DELTA_DAYS -> step <= MAX_DELTA_DAYS ->
  hd 0 dates + span <= last_of dates - Z.of_nat k * step ->
  last_of dates - Z.of_nat (S k) * step < MINORDINAL ->
  forall fuel, (S (S (S k)) <= fuel)%nat ->
    scan fuel dates episodes span step = Some (Err OverflowError).
Proof.
  intros Hsm Htm Hgo Hout fuel Hf. unfold scan, timedelta, date_add.
  replace (Z.abs step <=? MAX_DELTA_DAYS) with true by lia.
  replace (Z.abs span <=? MAX_DELTA_DAYS) with true by lia.
  assert (Hfl : hd 0 dates <= last_of dates) by nia.
  replace ((MINORDINAL <=? last_of dates + step)
           && (last_of dates + step <=? MAXORDINAL)) with true
    by (symmetry; apply andb_true_iff; split; apply Z.leb_le; lia).
  assert (Hlen : (0 < List.length dates)%nat)
    by (destruct dates; [congruence | simpl; lia]).
  apply (loop_leaves_calendar (S k) O []).
  - apply scan_inv_init. exact same_length.
  - cbn [left]. lia.
  - replace (0 + S k - 1)%nat with k by lia. exact Hgo.
  - discriminate.
  - exact Hout.
  - lia.
Qed.

End ScanLeavesCalendar.

Section ShowEdges.

Variable get_duration_info : str -> result (Z * Z).

(** With events in the ledger and answered lookups, [show] is the scan of
    the sorted event days. *)
Lemma show_scan h :
  lookups_succeed get_duration_info h = true ->
  has_events h = true ->
  exists dates episodes,
    nondecreasing dates /\
    List.length episodes = List.length dates /\
    dates <> [] /\
    (forall last_day,
       latest_day (ledger_events get_duration_info (items h)) last_day ->
       last_of dates = last_day) /\
    (forall first_day,
       earliest_day (ledger_events get_duration_info (items h)) first_day ->
       hd 0 dates = first_day) /\
    forall fuel span step,
      show get_duration_info fuel h span step
      = match scan fuel dates episodes span step with
        | None => None
        | Some (Err e) => Some (Err e)
        | Some (Ok st) =>
          Some (Ok (slice_back_to_0 (keys st), slice_back_to_0 (vals st)))
        end.
Proof.
  intros Hok Hev.
  pose proof (lookups_succeed_spec get_duration_info h Hok) as Hok'.
  pose proof (has_events_spec h Hev) as Hev'.
  destruct (collect_returns get_duration_info (items h) [] Hok')
    as [res Hres].
  pose proof (events_nonempty get_duration_info (items h) Hok' Hev') as Hnev.
  set (dates := List.map fst (sorted res)).
  set (episodes := List.map snd (sorted res)).
  assert (Hkeys : forall k, In k dates <->
              In k (List.map fst (ledger_events get_duration_info (items h)))).
  { intros k. unfold dates.
    rewrite sorted_keys, (collect_keys _ k _ _ _ Hres). simpl. intuition. }
  assert (Hne : dates <> []).
  { destruct (ledger_events get_duration_info (items h)) as [|[e m] evs] eqn:E;
      [congruence|].
    intros Heq. specialize (Hkeys e). rewrite Heq in Hkeys. simpl in Hkeys.
    apply Hkeys. auto. }
  assert (Hlen : List.length episodes = List.length dates)
    by (unfold episodes, dates; rewrite !length_map; reflexivity).
  pose proof (sorted_nondecreasing res) as Hsorted. fold dates in Hsorted.
  destruct (nondecreasing_first dates Hsorted Hne) as [Hfin Hfmin].
  destruct (nondecreasing_last dates Hsorted Hne) as [Hlin Hlmax].
  exists dates, episodes.
  split; [exact Hsorted|]. split; [exact Hlen|]. split; [exact Hne|].
  split; [|split].
  - intros last_day Hlast.
    apply (latest_day_unique
             (ledger_events get_duration_info (items h))); [|exact Hlast].
    split; [apply Hkeys; exact Hlin|].
    intros e He. apply Hlmax. apply Hkeys. exact He.
  - intros first_day Hfirst.
    apply (earliest_day_unique
             (ledger_events get_duration_info (items h))); [|exact Hfirst].
    split; [apply Hkeys; exact Hfin|].
    intros e He. apply Hfmin. apply Hkeys. exact He.
  - intros fuel span step. unfold show. rewrite Hres.
    rewrite combine_fst_snd. fold dates episodes.
    destruct (sorted res) as [|p s] eqn:Es;
      [unfold dates in Hne; simpl in Hne; congruence|].
    unfold zip_star. rewrite !getitem_0_cons.
    change (getitem [List.map fst (p :: s); List.map snd (p :: s)] 1)
      with (Ok (List.map snd (p :: s))).
    reflexivity.
Qed.

(** X19: [show] needs a step that is not zero.  With a step of zero and
    events that reach back [span] days or more from the latest one, the
    loop [while left >= 0] never ends: no number of passes gives a series
    or raises. *)
Theorem show_never_returns h span last_day first_day :
  lookups_succeed get_duration_info h = true ->
  has_events h = true ->
  latest_day (ledger_events get_duration_info (items h)) last_day ->
  earliest_day (ledger_events get_duration_info (items h)) first_day ->
  MINORDINAL <= first_day ->
  last_day <= MAXORDINAL ->
  - MAX_DELTA_DAYS <= span ->
  span <= last_day - first_day ->
  forall fuel, show get_duration_info fuel h span 0 = None.
Proof.
  intros Hok Hev Hlast Hfirst Hmin Hmax Hspan Hlong fuel.
  destruct (show_scan h Hok Hev)
    as (dates & episodes & Hsorted & Hlen & Hne & Hl & Hf & Hshow).
  specialize (Hl _ Hlast). specialize (Hf _ Hfirst).
  assert (Hfl : first_day <= last_day)
    by (apply (proj2 Hlast); apply (proj1 Hfirst)).
  assert (H1 : hd 0 dates <= last_of dates - span) by (rewrite Hl, Hf; lia).
  assert (H2 : MINORDINAL <= last_of dates <= MAXORDINAL)
    by (rewrite Hl; lia).
  assert (H3 : Z.abs span <= MAX_DELTA_DAYS)
    by (unfold MAX_DELTA_DAYS, MAXORDINAL, MINORDINAL in *; lia).
  rewrite Hshow.
  rewrite (scan_stalls dates episodes span 0); auto; lia.
Qed.

(** X21: with a step below zero and events that reach back [span] days or
    more from the latest one, [show] ends in [OverflowError]: at the
    timedeltas, at the first date, or when the date, moving forward by the
    step at every pass of a loop that cannot end, leaves the calendar. *)
Theorem show_negative_step_overflows h span step last_day first_day :
  step < 0 ->
  lookups_succeed get_duration_info h = true ->
  has_events h = true ->
  latest_day (ledger_events get_duration_info (items h)) last_day ->
  earliest_day (ledger_events get_duration_info (items h)) first_day ->
  span <= last_day - first_day ->
  exists fuel0,
    forall fuel, (fuel0 <= fuel)%nat ->
      show get_duration_info fuel h span step = Some (Err OverflowError).
Proof.
  intros Hneg Hok Hev Hlast Hfirst Hlong.
  destruct (show_scan h Hok Hev)
    as (dates & episodes & Hsorted & Hlen & Hne & Hl & Hf & Hshow).
  specialize (Hl _ Hlast). specialize (Hf _ Hfirst).
  destruct (scan_overflows dates episodes span step Hsorted Hlen Hne)
    as [fuel0 Hrun]; [lia | rewrite Hl, Hf; lia | exact Hneg |].
  exists fuel0. intros fuel Hfuel. rewrite Hshow, (Hrun fuel Hfuel).
  reflexivity.
Qed.

(** X22: a positive step that takes a sample day before [date.min] ends
    [show] in [OverflowError].  When the sample [k] steps before the latest
    event day still has an event on or before its trailing edge, so that
    the loop goes on, and the next sample day would lie before the first
    date of the calendar, [current_date -= step_delta] raises. *)
Theorem show_leaves_calendar h span step last_day first_day (k : nat) :
  0 < span -> span <= MAX_DELTA_DAYS ->
  0 < step -> step <= MAX_DELTA_DAYS ->
  lookups_succeed get_duration_info h = true ->
  has_events h = true ->
  latest_day (ledger_events get_duration_info (items h)) last_day ->
  earliest_day (ledger_events get_duration_info (items h)) first_day ->
  MINORDINAL <= first_day ->
  last_day + step <= MAXORDINAL ->
  first_day + span <= last_day - Z.of_nat k * step ->
  last_day - Z.of_nat (S k) * step < MINORDINAL ->
  exists fuel0,
    forall fuel, (fuel0 <= fuel)%nat ->
      show get_duration_info fuel h span step = Some (Err OverflowError).
Proof.
  intros Hspan Hsm Hstep Htm Hok Hev Hlast Hfirst Hmin Hmax Hgo Hout.
  destruct (show_scan h Hok Hev)
    as (dates & episodes & Hsorted & Hlen & Hne & Hl & Hf & Hshow).
  specialize (Hl _ Hlast). specialize (Hf _ Hfirst).
  exists (S (S (S k))). intros fuel Hfuel. rewrite Hshow.
  rewrite (scan_leaves_calendar dates episodes span step Hsorted Hlen Hne
             Hspan Hstep) with (k := k);
    [reflexivity | rewrite Hf; exact Hmin | rewrite Hl; exact Hmax
     | exact Hsm | exact Htm | rewrite Hl, Hf; exact Hgo
     | rewrite Hl; exact Hout | exact Hfuel].
Qed.

Lemma collect_stops_at its : forall r t item rest e,
  (forall t' item', In (t', item') its -> timestamps item' <> [] ->
     exists tot dur, get_duration_info (href item') = Ok (tot, dur)) ->
  timestamps item <> [] ->
  get_duration_info (href item) = Err e ->
  collect get_duration_info (its ++ (t, item) :: rest) r = Err e.
Proof.
  induction its as [|[t0 item0] its IH]; intros r t item rest e Hok Hne He.
  - cbn [app collect].
    destruct (timestamps item) as [|x ts] eqn:E; [congruence|].
    cbn [List.length Nat.eqb]. rewrite He. reflexivity.
  - cbn [app collect].
    destruct (timestamps item0) as [|x ts] eqn:E.
    + cbn [List.length Nat.eqb]. apply IH; try assumption.
      intros t' item' Hin. apply (Hok t' item'). right. exact Hin.
    + cbn [List.length Nat.eqb].
      destruct (Hok t0 item0 (or_introl eq_refl)) as (tot & dur & Hq);
        [rewrite E; discriminate|].
      rewrite Hq. cbn [bind]. apply IH; try assumption.
      intros t' item' Hin. apply (Hok t' item'). right. exact Hin.
Qed.

(** X20: [show] looks up the duration of every record that has events, in
    the order of the ledger, before it computes anything: the first lookup
    that raises ends [show] with that error, whatever [span] and [step]
    are and whatever the later records hold. *)
Theorem show_lookup_failure h h_before t item rest e span step :
  items h = items h_before ++ (t, item) :: rest ->
  lookups_succeed get_duration_info h_before = true ->
  has_log item = true ->
  get_duration_info (href item) = Err e ->
  forall fuel, show get_duration_info fuel h span step = Some (Err e).
Proof.
  intros Hitems Hok Hlog He fuel.
  unfold show. rewrite Hitems.
  rewrite (collect_stops_at (items h_before) [] t item rest e).
  - reflexivity.
  - apply lookups_succeed_spec. exact Hok.
  - apply has_log_nonempty. exact Hlog.
  - exact He.
Qed.

End ShowEdges.

(* ------------------------------------------------------------------ *)
(** ** The properties at work on the sample pages and lines *)

Lemma parse_duration_no_numbers_witness :
  AnimeInfo.parse_duration ascii_is_digit ascii_int (ustr "a1 час b2 мин.")
  = AnimeInfo.Done 0.
Proof.
  apply (parse_duration_no_numbers ascii_is_digit ascii_int
           (ustr "a1 час b2 мин.")).
  vm_compute. repeat constructor.
Defined.

Lemma parse_duration_join_witness :
  AnimeInfo.parse_duration ascii_is_digit ascii_int
    (ustr "1 час" ++ SPACE :: ustr "30 мин.")
  = AnimeInfo.Done (60 + 30).
Proof.
  apply (parse_duration_join ascii_is_digit ascii_int
           (ustr "1 час") (ustr "30 мин.") 60 30);
    vm_compute; reflexivity.
Defined.

Lemma parse_duration_unit_witness :
  AnimeInfo.parse_duration ascii_is_digit ascii_int
    (ustr "2" ++ SPACE :: ustr "часа")
  = if negb (find (ustr "часа") AnimeInfo.HOUR =? -1)
    then AnimeInfo.Done (60 * 2)
    else if negb (find (ustr "часа") AnimeInfo.MINUTE =? -1)
    then AnimeInfo.Done 2
    else AnimeInfo.Raised
           (AnimeInfo.DurationUnknownSignature (ustr "часа")
              (ustr "2" ++ SPACE :: ustr "часа")).
Proof.
  apply (parse_duration_unit ascii_is_digit ascii_int
           (ustr "2") (ustr "часа") 2);
    vm_compute; try reflexivity; intuition discriminate.
Defined.

Lemma parse_episodes_parts_witness :
  AnimeInfo.parse_episodes ascii_int (ustr "5")
  = AnimeInfo.int_of ascii_int (ustr "5") /\
  AnimeInfo.parse_episodes ascii_int
    (ustr "5" ++ AnimeInfo.SLASH :: ustr "?")
  = if find (ustr "?") AnimeInfo.QUESTION =? -1
    then AnimeInfo.int_of ascii_int (ustr "?")
    else AnimeInfo.int_of ascii_int (ustr "5").
Proof.
  apply (parse_episodes_parts ascii_int (ustr "5") (ustr "?"));
    vm_compute; intuition discriminate.
Defined.

Lemma get_duration_info_memoised_witness :
  sample_get_duration_info [] (ustr "/animes/2")
  = (AnimeInfo.Done (5, 90), [(ustr "/animes/2", (5, 90))]) /\
  forall digit_char' py_int' fetch',
    AnimeInfo.get_duration_info digit_char' py_int' fetch'
      [(ustr "/animes/2", (5, 90))] (ustr "/animes/2")
    = (AnimeInfo.Done (5, 90), [(ustr "/animes/2", (5, 90))]).
Proof.
  split; [vm_compute; reflexivity|].
  apply (get_duration_info_memoised ascii_is_digit ascii_int sample_fetch
           [] (ustr "/animes/2") (5, 90) [(ustr "/animes/2", (5, 90))]).
  vm_compute. reflexivity.
Defined.

Lemma get_duration_info_keeps_cache_witness :
  (forall k info,
     dict_get str_eqb [(ustr "/animes/1", (12, 24))] k = Some info ->
     dict_get str_eqb
       [(ustr "/animes/1", (12, 24)); (ustr "/animes/3", (1, 120))] k
     = Some info) /\
  (forall e, AnimeInfo.Done (1, 120) = AnimeInfo.Raised e ->
     [(ustr "/animes/1", (12, 24)); (ustr "/animes/3", (1, 120))]
     = [(ustr "/animes/1", (12, 24))]) /\
  (forall info, AnimeInfo.Done (1, 120) = AnimeInfo.Done info ->
     dict_get str_eqb
       [(ustr "/animes/1", (12, 24)); (ustr "/animes/3", (1, 120))]
       (ustr "/animes/3")
     = Some info).
Proof.
  apply (get_duration_info_keeps_cache ascii_is_digit ascii_int sample_fetch
           [(ustr "/animes/1", (12, 24))] (ustr "/animes/3")).
  vm_compute. reflexivity.
Defined.

Lemma sample_cache_consistent :
  AnimeInfo.cache_consistent ascii_is_digit ascii_int sample_fetch
    [(ustr "/animes/1", (12, 24))].
Proof.
  intros href info H. cbn [dict_get] in H.
  destruct (str_eqb (ustr "/animes/1") href) eqn:E; [|discriminate].
  apply str_eqb_eq in E. subst href. injection H as <-.
  vm_compute. reflexivity.
Qed.

Lemma get_duration_info_pure_witness :
  exists c',
    AnimeInfo.get_duration_info ascii_is_digit ascii_int sample_fetch
      [(ustr "/animes/1", (12, 24))] (ustr "/animes/2")
    = (AnimeInfo.fresh_info ascii_is_digit ascii_int sample_fetch
         (ustr "/animes/2"), c') /\
    AnimeInfo.cache_consistent ascii_is_digit ascii_int sample_fetch c'.
Proof.
  apply (get_duration_info_pure ascii_is_digit ascii_int sample_fetch
           [(ustr "/animes/1", (12, 24))] (ustr "/animes/2")).
  exact sample_cache_consistent.
Defined.

Lemma ledger1_wf : ledger_wf ledger1.
Proof.
  split.
  - vm_compute. repeat constructor. intros [].
  - intros t item H. vm_compute in H. destruct H as [H|[]].
    inversion H. reflexivity.
Qed.

Lemma ledger_stays_well_formed_witness : ledger_wf ledger3.
Proof.
  apply (ledger_stays_well_formed ascii_is_digit ascii_digit_value
           sample_lookup sample_strptime [line_between; line_later]
           ledger1 ledger3).
  - exact ledger1_wf.
  - vm_compute. reflexivity.
Defined.

Lemma ledger_accounts_for_episodes_witness :
  process_all ascii_is_digit ascii_digit_value sample_lookup sample_strptime
    History_init [line_first; line_between; line_later] = Ok ledger3 /\
  forall t item, In (t, item) (items ledger3) ->
    accounted sample_lookup item.
Proof.
  split; [vm_compute; reflexivity|].
  apply (ledger_accounts_for_episodes ascii_is_digit ascii_digit_value
           sample_lookup sample_strptime
           [line_first; line_between; line_later] ledger3).
  vm_compute. reflexivity.
Defined.

Lemma logs_follow_input_order_witness :
  line_days sample_strptime [line_first; line_between; line_later]
  = [1; 5; 9] /\
  forall t item, In (t, item) (items ledger3) ->
    nondecreasing (log_days item).
Proof.
  split; [vm_compute; reflexivity|].
  apply (logs_follow_input_order ascii_is_digit ascii_digit_value
           sample_lookup sample_strptime
           [line_first; line_between; line_later] ledger3).
  - vm_compute. repeat constructor; discriminate.
  - vm_compute. reflexivity.
Defined.

Lemma ledger_keeps_records_witness :
  exists item',
    dict_get str_eqb (items ledger3) (ustr "Title") = Some item' /\
    href item' = href started_item /\ title item' = title started_item.
Proof.
  apply (ledger_keeps_records ascii_is_digit ascii_digit_value
           sample_lookup sample_strptime [line_between; line_later]
           ledger1 ledger3 (ustr "Title") started_item).
  - vm_compute. reflexivity.
  - vm_compute. reflexivity.
Defined.



Lemma ascii_phrases_no_digits : phrases_no_digits ascii_is_digit.
Proof. vm_compute. repeat constructor. Qed.

Lemma watched_count_delta_witness :
  edit ascii_is_digit ascii_digit_value sample_lookup sample_item
    (ustr "просмотрено " ++ ustr "25" ++ ustr " эпизод" ++ ustr "ов")
    (day 1)
  = Ok (PartialProgress (int ascii_digit_value (ustr "25")),
        watch sample_item (day 1) (int ascii_digit_value (ustr "25"))).
Proof.
  apply (watched_count_delta ascii_is_digit ascii_digit_value sample_lookup
           sample_item (day 1) (ustr "25") (ustr "ов")).
  - exact ascii_phrases_no_digits.
  - split; [discriminate | vm_compute; repeat constructor].
  - vm_compute. reflexivity.
Defined.

Lemma watched_range_delta_witness :
  edit ascii_is_digit ascii_digit_value sample_lookup sample_item
    (ustr "просмотрены с " ++ ustr "5" ++ ustr "-го по " ++ ustr "10"
     ++ ustr "-й эпизоды") (day 1)
  = Ok (PartialProgress
          (int ascii_digit_value (ustr "10")
           - int ascii_digit_value (ustr "5") + 1),
        watch sample_item (day 1)
          (int ascii_digit_value (ustr "10")
           - int ascii_digit_value (ustr "5") + 1)).
Proof.
  apply (watched_range_delta ascii_is_digit ascii_digit_value sample_lookup
           sample_item (day 1) (ustr "5") (ustr "10")).
  - exact ascii_phrases_no_digits.
  - split; [discriminate | vm_compute; repeat constructor].
  - split; [discriminate | vm_compute; repeat constructor].
Defined.

Lemma watched_list_delta_witness :
  edit ascii_is_digit ascii_digit_value sample_lookup sample_item
    (ustr "просмотрены"
     ++ ordinal_text [(ustr " ", ustr "1"); (ustr ", ", ustr "2");
                      (ustr " и ", ustr "1")] (ustr " эпизоды")) (day 1)
  = Ok (PartialProgress 3, watch sample_item (day 1) 3).
Proof.
  apply (watched_list_delta ascii_is_digit ascii_digit_value sample_lookup
           ascii_phrases_no_digits sample_item (day 1)
           [(ustr " ", ustr "1"); (ustr ", ", ustr "2");
            (ustr " и ", ustr "1")]).
  - discriminate.
  - repeat constructor; try discriminate; vm_compute; repeat constructor.
  - vm_compute. reflexivity.
  - vm_compute. reflexivity.
Defined.

Lemma show_never_returns_witness :
  ledger_events sample_lookup (items ledger3) = [(1, 72); (9, 216); (5, 48)]
  /\ forall fuel, show sample_lookup fuel ledger3 5 0 = None.
Proof.
  split; [vm_compute; reflexivity|].
  apply (show_never_returns sample_lookup ledger3 5 9 1).
  - vm_compute. reflexivity.
  - vm_compute. reflexivity.
  - split; [vm_compute; auto | intros e H; vm_compute in H; intuition lia].
  - split; [vm_compute; auto | intros e H; vm_compute in H; intuition lia].
  - vm_compute. discriminate.
  - vm_compute. discriminate.
  - vm_compute. discriminate.
  - lia.
Defined.

Lemma show_negative_step_overflows_witness :
  exists fuel0,
    forall fuel, (fuel0 <= fuel)%nat ->
      show sample_lookup fuel ledger3 5 (-10) = Some (Err OverflowError).
Proof.
  apply (show_negative_step_overflows sample_lookup ledger3 5 (-10) 9 1).
  - lia.
  - vm_compute. reflexivity.
  - vm_compute. reflexivity.
  - split; [vm_compute; auto | intros e H; vm_compute in H; intuition lia].
  - split; [vm_compute; auto | intros e H; vm_compute in H; intuition lia].
  - lia.
Defined.

Lemma show_leaves_calendar_witness :
  exists fuel0,
    forall fuel, (fuel0 <= fuel)%nat ->
      show sample_lookup fuel ledger3 3 20 = Some (Err OverflowError).
Proof.
  apply (show_leaves_calendar sample_lookup ledger3 3 20 9 1 0).
  - lia.
  - vm_compute. discriminate.
  - lia.
  - vm_compute. discriminate.
  - vm_compute. reflexivity.
  - vm_compute. reflexivity.
  - split; [vm_compute; auto | intros e H; vm_compute in H; intuition lia].
  - split; [vm_compute; auto | intros e H; vm_compute in H; intuition lia].
  - vm_compute. discriminate.
  - vm_compute. discriminate.
  - vm_compute. discriminate.
  - vm_compute. reflexivity.
Defined.

(** The second pass of the scan, on the sample ledger with a window of 3
    days and a step of 20, would be dated 11 days before the first date of
    the calendar. *)
Example show_ledger3_overflow :
  sample_show 100 ledger3 3 20 = Some (Err OverflowError).
Proof. vm_compute. reflexivity. Qed.

Lemma show_lookup_failure_witness :
  items ledger4 = items ledger3 ++ [(ustr "Unknown", unknown_item)] /\
  forall fuel,
    show sample_lookup fuel ledger4 49 14
    = Some (Err (LookupFailure (ustr "/animes/404"))).
Proof.
  split; [vm_compute; reflexivity|].
  apply (show_lookup_failure sample_lookup ledger4 ledger3
           (ustr "Unknown") unknown_item []).
  - vm_compute. reflexivity.
  - vm_compute. reflexivity.
  - vm_compute. reflexivity.
  - vm_compute. reflexivity.
Defined.
